(** * n8n chatbot: the response reconciliation engine of [src/App.jsx]

    A shallow embedding of [handleSendMessage] and [handleNewChat] and of
    the JavaScript runtime pieces they call ([String.prototype] methods,
    [TextDecoder], [JSON.parse], string coercion, the [/{.*}/] match),
    followed by the properties of the engine. *)

From Stdlib Require Import List NArith ZArith Bool Ascii String Lia.
From Stdlib Require Import Strings.Byte.
Import ListNotations.

(** ** JavaScript strings

    A JavaScript string is a sequence of UTF-16 code units. *)

Module JSString.

Definition jsstring := list N.

(** An ASCII literal of the source as a JavaScript string. *)
Definition str (s : string) : jsstring :=
  map N_of_ascii (list_ascii_of_string s).

Definition LF : N := 10.
Definition QUOTE : N := 34.

(** [s.length > 0], the truth value of a string. *)
Definition nonEmpty (s : jsstring) : bool :=
  match s with [] => false | _ :: _ => true end.

(** WhiteSpace and LineTerminator code units, the ones [trim] strips. *)
Definition isWhiteSpace (c : N) : bool :=
  ((9 <=? c) && (c <=? 13) || (c =? 32) || (c =? 160) || (c =? 5760)
   || (8192 <=? c) && (c <=? 8202) || (c =? 8232) || (c =? 8233)
   || (c =? 8239) || (c =? 8287) || (c =? 12288) || (c =? 65279))%N.

(** LineTerminator code units, the ones [.] of a regular expression
    does not match. *)
Definition isLineTerminator (c : N) : bool :=
  ((c =? 10) || (c =? 13) || (c =? 8232) || (c =? 8233))%N.

Fixpoint dropWhile (p : N -> bool) (s : jsstring) : jsstring :=
  match s with
  | [] => []
  | c :: r => if p c then dropWhile p r else s
  end.

Definition trimStart (s : jsstring) : jsstring := dropWhile isWhiteSpace s.
Definition trimEnd (s : jsstring) : jsstring :=
  rev (dropWhile isWhiteSpace (rev s)).

(** [s.trim()] *)
Definition trim (s : jsstring) : jsstring := trimEnd (trimStart s).

(** [s.startsWith(p)] *)
Fixpoint startsWith (s p : jsstring) : bool :=
  match p, s with
  | [], _ => true
  | _ :: _, [] => false
  | c :: p', d :: s' => (c =? d)%N && startsWith s' p'
  end.

(** [s.includes(p)] *)
Fixpoint includes (s p : jsstring) : bool :=
  startsWith s p ||
  match s with
  | [] => false
  | _ :: s' => includes s' p
  end.

(** [s.substring(n)] *)
Definition substring (n : nat) (s : jsstring) : jsstring := skipn n s.

(** [s.split('\n')]: the segments between line feeds, at least one. *)
Definition consHead (c : N) (segs : list jsstring) : list jsstring :=
  match segs with
  | [] => [[c]]
  | h :: t => (c :: h) :: t
  end.

Fixpoint split (s : jsstring) : list jsstring :=
  match s with
  | [] => [[]]
  | c :: r => if (c =? LF)%N then [] :: split r else consHead c (split r)
  end.

(** [a.pop()] returns the last element (the default stands for
    [undefined], which [split] never meets: it has no empty result) and
    leaves the array without it. *)
Definition pop (lines : list jsstring) : jsstring * list jsstring :=
  (last lines [], removelast lines).

(** Decimal digits of a non-negative integer, as [String(n)] prints an
    integer Number such as an HTTP status. *)
Fixpoint digitsFuel (fuel : nat) (n : N) (acc : jsstring) : jsstring :=
  match fuel with
  | O => acc
  | S f =>
      let acc' := (48 + n mod 10)%N :: acc in
      if (n <? 10)%N then acc' else digitsFuel f (n / 10)%N acc'
  end.

Definition ofN (n : N) : jsstring := digitsFuel (S (N.to_nat (N.log2 n))) n [].

End JSString.
Export JSString.

(** ** [TextDecoder]: the streaming UTF-8 decoder

    The decoder of the Encoding Standard handles one byte at a time and
    keeps its state between the calls of [decode(value, {stream: true})]. *)

Module Utf8.

Record decoder := {
  codePoint : N;
  bytesSeen : N;
  bytesNeeded : N;
  lowerBoundary : N;
  upperBoundary : N;
  bomSeen : bool
}.

(** [new TextDecoder()] *)
Definition fresh : decoder :=
  {| codePoint := 0; bytesSeen := 0; bytesNeeded := 0;
     lowerBoundary := 128; upperBoundary := 191; bomSeen := false |}.

Definition REPLACEMENT : N := 65533.

Definition reset (d : decoder) : decoder :=
  {| codePoint := 0; bytesSeen := 0; bytesNeeded := 0;
     lowerBoundary := 128; upperBoundary := 191; bomSeen := bomSeen d |}.

(** A byte met while no sequence is open. *)
Definition lead (d : decoder) (b : N) : decoder * list N :=
  if (b <=? 127)%N then (d, [b])
  else if (194 <=? b)%N && (b <=? 223)%N then
    ({| codePoint := N.land b 31; bytesSeen := 0; bytesNeeded := 1;
        lowerBoundary := 128; upperBoundary := 191; bomSeen := bomSeen d |}, [])
  else if (224 <=? b)%N && (b <=? 239)%N then
    ({| codePoint := N.land b 15; bytesSeen := 0; bytesNeeded := 2;
        lowerBoundary := if (b =? 224)%N then 160 else 128;
        upperBoundary := if (b =? 237)%N then 159 else 191;
        bomSeen := bomSeen d |}, [])
  else if (240 <=? b)%N && (b <=? 244)%N then
    ({| codePoint := N.land b 7; bytesSeen := 0; bytesNeeded := 3;
        lowerBoundary := if (b =? 240)%N then 144 else 128;
        upperBoundary := if (b =? 244)%N then 143 else 191;
        bomSeen := bomSeen d |}, [])
  else (d, [REPLACEMENT]).

(** The handler of the decoder: the code points one byte gives. A byte
    out of the boundaries closes the open sequence with U+FFFD and is
    handled again as a lead byte. *)
Definition handler (d : decoder) (b : N) : decoder * list N :=
  if (bytesNeeded d =? 0)%N then lead d b
  else if (b <? lowerBoundary d)%N || (upperBoundary d <? b)%N then
    let (d', out) := lead (reset d) b in (d', REPLACEMENT :: out)
  else
    let cp := N.lor (N.shiftl (codePoint d) 6) (N.land b 63) in
    if (bytesSeen d + 1 =? bytesNeeded d)%N then (reset d, [cp])
    else
      ({| codePoint := cp; bytesSeen := bytesSeen d + 1;
          bytesNeeded := bytesNeeded d;
          lowerBoundary := 128; upperBoundary := 191;
          bomSeen := bomSeen d |}, []).

(** A code point as UTF-16 code units. *)
Definition codeUnits (cp : N) : jsstring :=
  if (cp <=? 65535)%N then [cp]
  else [(55296 + N.shiftr (cp - 65536) 10)%N;
        (56320 + N.land (cp - 65536) 1023)%N].

(** Serialisation of the decoded code points: the first code point of
    the stream is dropped when it is the byte order mark. *)
Fixpoint serialize (d : decoder) (cps : list N) : decoder * jsstring :=
  match cps with
  | [] => (d, [])
  | cp :: r =>
      if bomSeen d then
        let (d', out) := serialize d r in (d', codeUnits cp ++ out)
      else
        let d1 := {| codePoint := codePoint d; bytesSeen := bytesSeen d;
                     bytesNeeded := bytesNeeded d;
                     lowerBoundary := lowerBoundary d;
                     upperBoundary := upperBoundary d; bomSeen := true |} in
        let (d', out) := serialize d1 r in
        if (cp =? 65279)%N then (d', out) else (d', codeUnits cp ++ out)
  end.

Definition step (d : decoder) (b : byte) : decoder * jsstring :=
  let (d1, cps) := handler d (Byte.to_N b) in serialize d1 cps.

(** [decoder.decode(value, {stream: true})] *)
Fixpoint decode (d : decoder) (value : list byte) : decoder * jsstring :=
  match value with
  | [] => (d, [])
  | b :: r =>
      let (d1, out1) := step d b in
      let (d2, out2) := decode d1 r in
      (d2, out1 ++ out2)
  end.

(** The end of the stream: an open sequence gives U+FFFD. *)
Definition flush (d : decoder) : jsstring :=
  if (bytesNeeded d =? 0)%N then []
  else snd (serialize (reset d) [REPLACEMENT]).

(** "UTF-8 decode" of a whole body, as [response.text()] and
    [response.json()] do. *)
Definition decodeAll (bytes : list byte) : jsstring :=
  let (d, out) := decode fresh bytes in out ++ flush d.

(** The bytes of an ASCII literal. *)
Definition bytesOf (s : string) : list byte :=
  map byte_of_ascii (list_ascii_of_string s).

End Utf8.

(** ** The Line Buffer of the read loop (lines 104-113) *)

Module LineBuffer.

Record t := { decoder : Utf8.decoder; buffer : jsstring }.

(** [const decoder = new TextDecoder(); let buffer = '';] *)
Definition empty : t := {| decoder := Utf8.fresh; buffer := [] |}.

(** One turn of the loop on a chunk:
    [buffer += decoder.decode(value, {stream: true});
     const lines = buffer.split('\n'); buffer = lines.pop();] *)
Definition push (lb : t) (value : list byte) : list jsstring * t :=
  let (d, text) := Utf8.decode (decoder lb) value in
  let (rest, lines) := pop (split (buffer lb ++ text)) in
  (lines, {| decoder := d; buffer := rest |}).

(** The lines of all the turns of the loop, in order, and the buffer
    left when the source is exhausted. *)
Fixpoint pushAll (lb : t) (chunks : list (list byte)) : list jsstring * t :=
  match chunks with
  | [] => ([], lb)
  | value :: rest =>
      let (lines, lb1) := push lb value in
      let (more, lb2) := pushAll lb1 rest in
      (lines ++ more, lb2)
  end.

End LineBuffer.

(** ** JSON values and [JSON.parse] *)

Module Json.

(** A Number is an IEEE double; the model keeps the decimal numeral that
    [JSON.parse] read (it denotes the double nearest to
    [mantissa * 10 ^ exponent], negated when [negative]) and leaves the
    arithmetic of doubles to the platform. *)
Inductive number :=
| Dec (negative : bool) (mantissa : N) (exponent : Z)
| NaN
| Infinity (negative : bool).

#[warnings="-register-all"]
Inductive value :=
| JNull
| JBool (b : bool)
| JNumber (n : number)
| JString (s : jsstring)
| JArray (elements : list value)
| JObject (members : list (jsstring * value)).

Fixpoint strEqb (a b : jsstring) : bool :=
  match a, b with
  | [], [] => true
  | c :: a', d :: b' => (c =? d)%N && strEqb a' b'
  | _, _ => false
  end.

(** The own property [key] of an object built by [JSON.parse]: of the
    members of that name the last one read wins. *)
Fixpoint getMember (members : list (jsstring * value)) (key : jsstring)
  : option value :=
  match members with
  | [] => None
  | (k, v) :: rest =>
      match getMember rest key with
      | Some w => Some w
      | None => if strEqb k key then Some v else None
      end
  end.

Definition isJsonWhiteSpace (c : N) : bool :=
  ((c =? 9) || (c =? 10) || (c =? 13) || (c =? 32))%N.

Definition skipWs (s : jsstring) : jsstring := dropWhile isJsonWhiteSpace s.

Definition isDigit (c : N) : bool := ((48 <=? c) && (c <=? 57))%N.

Definition hexDigit (c : N) : option N :=
  if isDigit c then Some (c - 48)%N
  else if ((65 <=? c) && (c <=? 70))%N then Some (c - 55)%N
  else if ((97 <=? c) && (c <=? 102))%N then Some (c - 87)%N
  else None.

(** The character a one-letter escape stands for. *)
Definition escape (c : N) : option N :=
  if (c =? 34)%N then Some 34%N          (* quotation mark *)
  else if (c =? 92)%N then Some 92%N     (* reverse solidus *)
  else if (c =? 47)%N then Some 47%N     (* solidus *)
  else if (c =? 98)%N then Some 8%N      (* b: backspace *)
  else if (c =? 102)%N then Some 12%N    (* f: form feed *)
  else if (c =? 110)%N then Some 10%N    (* n: line feed *)
  else if (c =? 114)%N then Some 13%N    (* r: carriage return *)
  else if (c =? 116)%N then Some 9%N     (* t: tab *)
  else None.

(** The characters of a string literal after its opening quote, up to
    the closing quote, and what follows it. *)
Fixpoint stringBody (s : jsstring) : option (jsstring * jsstring) :=
  match s with
  | [] => None
  | c :: r =>
      if (c =? 34)%N then Some ([], r)
      else if (c =? 92)%N then
        match r with
        | [] => None
        | e :: r1 =>
            if (e =? 117)%N then
              match r1 with
              | h1 :: h2 :: h3 :: h4 :: r2 =>
                  match hexDigit h1, hexDigit h2, hexDigit h3, hexDigit h4 with
                  | Some a, Some b, Some c', Some d =>
                      match stringBody r2 with
                      | Some (t, rest) =>
                          Some ((a * 4096 + b * 256 + c' * 16 + d)%N :: t, rest)
                      | None => None
                      end
                  | _, _, _, _ => None
                  end
              | _ => None
              end
            else
              match escape e with
              | Some ch =>
                  match stringBody r1 with
                  | Some (t, rest) => Some (ch :: t, rest)
                  | None => None
                  end
              | None => None
              end
        end
      else if (c <? 32)%N then None
      else
        match stringBody r with
        | Some (t, rest) => Some (c :: t, rest)
        | None => None
        end
  end.

(** The longest run of decimal digits at the head of [s]. *)
Fixpoint digits (s : jsstring) : list N * jsstring :=
  match s with
  | [] => ([], [])
  | c :: r =>
      if isDigit c then let (ds, rest) := digits r in ((c - 48)%N :: ds, rest)
      else ([], s)
  end.

Definition digitsValue (ds : list N) : N :=
  fold_left (fun acc d => (acc * 10 + d)%N) ds 0%N.

(** The parts of a number: an optional minus sign, then 0 or a digit
    from 1 to 9 with more digits, then an optional fraction (a point
    and at least one digit) and an optional exponent (e or E, an
    optional sign and at least one digit). *)
Definition signPart (s : jsstring) : bool * jsstring :=
  match s with
  | c :: r => if (c =? 45)%N then (true, r) else (false, s)
  | [] => (false, s)
  end.

Definition intPart (s : jsstring) : option (list N * jsstring) :=
  match s with
  | c :: r =>
      if (c =? 48)%N then Some ([0%N], r)
      else if isDigit c then
        let (ds, rest) := digits r in Some ((c - 48)%N :: ds, rest)
      else None
  | [] => None
  end.

Definition fracPart (s : jsstring) : option (list N * jsstring) :=
  match s with
  | c :: r =>
      if (c =? 46)%N then
        match digits r with
        | ([], _) => None
        | (fs, rest) => Some (fs, rest)
        end
      else Some ([], s)
  | [] => Some ([], s)
  end.

Definition expSign (s : jsstring) : bool * jsstring :=
  match s with
  | c :: r =>
      if (c =? 45)%N then (true, r)
      else if (c =? 43)%N then (false, r)
      else (false, s)
  | [] => (false, s)
  end.

Definition expPart (s : jsstring) : option (Z * jsstring) :=
  match s with
  | c :: r =>
      if (c =? 101)%N || (c =? 69)%N then
        let (eneg, r1) := expSign r in
        match digits r1 with
        | ([], _) => None
        | (es, rest) =>
            let e := Z.of_N (digitsValue es) in
            Some (if eneg then (- e)%Z else e, rest)
        end
      else Some (0%Z, s)
  | [] => Some (0%Z, s)
  end.

Definition numberLiteral (s : jsstring) : option (number * jsstring) :=
  let (neg, s1) := signPart s in
  match intPart s1 with
  | None => None
  | Some (ints, s2) =>
      match fracPart s2 with
      | None => None
      | Some (fracs, s3) =>
          match expPart s3 with
          | None => None
          | Some (e, s4) =>
              Some (Dec neg (digitsValue (ints ++ fracs))
                        (e - Z.of_nat (List.length fracs))%Z, s4)
          end
      end
  end.

(** [s] without the literal [lit] at its head. *)
Fixpoint expect (lit s : jsstring) : option jsstring :=
  match lit, s with
  | [], _ => Some s
  | c :: lit', d :: s' => if (c =? d)%N then expect lit' s' else None
  | _ :: _, [] => None
  end.

(** Recursive descent on the JSON grammar, one level at a time: what a
    value, the elements of an array after its bracket and the members
    of an object after its brace are, given the parsers of the parts. *)
Definition valueBody
    (members : jsstring -> list (jsstring * value) -> option (value * jsstring))
    (elements : jsstring -> list value -> option (value * jsstring))
    (s : jsstring) : option (value * jsstring) :=
  match skipWs s with
  | [] => None
  | c :: r =>
      if (c =? 123)%N then                       (* left brace *)
        match skipWs r with
        | d :: r1 =>
            if (d =? 125)%N then Some (JObject [], r1)
            else members (skipWs r) []
        | [] => None
        end
      else if (c =? 91)%N then                   (* left bracket *)
        match skipWs r with
        | d :: r1 =>
            if (d =? 93)%N then Some (JArray [], r1)
            else elements r []
        | [] => None
        end
      else if (c =? 34)%N then
        match stringBody r with
        | Some (t, rest) => Some (JString t, rest)
        | None => None
        end
      else if (c =? 116)%N then
        option_map (pair (JBool true)) (expect (str "rue") r)
      else if (c =? 102)%N then
        option_map (pair (JBool false)) (expect (str "alse") r)
      else if (c =? 110)%N then
        option_map (pair JNull) (expect (str "ull") r)
      else
        match numberLiteral (c :: r) with
        | Some (n, rest) => Some (JNumber n, rest)
        | None => None
        end
  end.

Definition elementsBody
    (element : jsstring -> option (value * jsstring))
    (elements : jsstring -> list value -> option (value * jsstring))
    (s : jsstring) (acc : list value) : option (value * jsstring) :=
  match element s with
  | None => None
  | Some (v, r) =>
      match skipWs r with
      | c :: r1 =>
          if (c =? 44)%N then elements r1 (v :: acc)
          else if (c =? 93)%N then Some (JArray (rev (v :: acc)), r1)
          else None
      | [] => None
      end
  end.

Definition membersBody
    (member : jsstring -> option (value * jsstring))
    (members : jsstring -> list (jsstring * value) -> option (value * jsstring))
    (s : jsstring) (acc : list (jsstring * value)) : option (value * jsstring) :=
  match s with
  | q :: s1 =>
      if (q =? 34)%N then
        match stringBody s1 with
        | None => None
        | Some (key, r) =>
            match skipWs r with
            | c :: r1 =>
                if (c =? 58)%N then
                  match member r1 with
                  | None => None
                  | Some (v, r2) =>
                      match skipWs r2 with
                      | d :: r3 =>
                          if (d =? 44)%N then
                            members (skipWs r3) ((key, v) :: acc)
                          else if (d =? 125)%N then
                            Some (JObject (rev ((key, v) :: acc)), r3)
                          else None
                      | [] => None
                      end
                  end
                else None
            | [] => None
            end
        end
      else None
  | [] => None
  end.

(** The parsers, by recursion on fuel: every call is made on fuel one
    less and, between two calls on the same fuel, input is consumed, so
    that [2 * length s + 1] is enough for [s]. *)
Fixpoint parseValue (fuel : nat) (s : jsstring) : option (value * jsstring) :=
  match fuel with
  | O => None
  | S f => valueBody (parseMembers f) (parseElements f) s
  end

with parseElements (fuel : nat) (s : jsstring) (acc : list value)
  : option (value * jsstring) :=
  match fuel with
  | O => None
  | S f => elementsBody (parseValue f) (parseElements f) s acc
  end

with parseMembers (fuel : nat) (s : jsstring) (acc : list (jsstring * value))
  : option (value * jsstring) :=
  match fuel with
  | O => None
  | S f => membersBody (parseValue f) (parseMembers f) s acc
  end.

(** [JSON.parse(text)]; [None] stands for the SyntaxError it throws.
    The fuel is the bound above, beyond which no result changes. *)
Definition parse (text : jsstring) : option value :=
  match parseValue (2 * List.length text + 1) text with
  | Some (v, rest) =>
      match skipWs rest with
      | [] => Some v
      | _ :: _ => None
      end
  | None => None
  end.

End Json.
Export Json.

(** ** What the model takes from the platform

    The arithmetic and the printing of doubles and the wording of the
    errors the runtime throws are not fixed by the program. *)

Class Platform := {
  (** [String(x)] of a Number *)
  numberToString : number -> jsstring;
  (** [a + b] of two primitive values none of which is a string *)
  addNumeric : value -> value -> number;
  (** the message of the SyntaxError of [JSON.parse(text)] *)
  syntaxErrorMessage : jsstring -> jsstring;
  (** the message of the TypeError of reading property [name] of [null] *)
  nullReadMessage : jsstring -> jsstring
}.

(** ** Coercions of JavaScript values *)

Module Coercion.
Section WithPlatform.
Context {platform : Platform}.

(** A double is falsy when it is a zero or NaN. The numeral
    [mantissa * 10 ^ exponent] is read as a zero when it is at most
    [2 ^ -1075], half the least positive double. *)
Definition readsAsZero (mantissa : N) (exponent : Z) : bool :=
  if (mantissa =? 0)%N then true
  else if (0 <=? exponent)%Z then false
  else (Z.of_N mantissa * 2 ^ 1075 <=? 10 ^ (- exponent))%Z.

Definition numberTruthy (n : number) : bool :=
  match n with
  | Dec _ m e => negb (readsAsZero m e)
  | NaN => false
  | Infinity _ => true
  end.

(** The truth value of [if (x)]. *)
Definition truthy (v : value) : bool :=
  match v with
  | JNull => false
  | JBool b => b
  | JNumber n => numberTruthy n
  | JString s => nonEmpty s
  | JArray _ | JObject _ => true
  end.

Definition hasMember (members : list (jsstring * value)) (key : jsstring) : bool :=
  match getMember members key with
  | Some _ => true
  | None => false
  end.

(** [String(x)], as string concatenation and template literals convert.
    An array is joined with commas, [null] elements giving nothing. An
    object of [JSON.parse] prints as [[object Object]] unless a member
    of its own hides [toString]: no member is callable, the conversion
    then finds no method and throws a TypeError ([None]). *)
Fixpoint toString (v : value) : option jsstring :=
  match v with
  | JNull => Some (str "null")
  | JBool true => Some (str "true")
  | JBool false => Some (str "false")
  | JNumber n => Some (numberToString n)
  | JString s => Some s
  | JArray elements =>
      (fix join (l : list value) : option jsstring :=
         match l with
         | [] => Some []
         | e :: r =>
             let first :=
               match e with
               | JNull => Some []
               | _ => toString e
               end in
             match first, join r with
             | Some a, Some b =>
                 Some (match r with
                       | [] => a
                       | _ :: _ => a ++ str "," ++ b
                       end)
             | _, _ => None
             end
         end) elements
  | JObject members =>
      if hasMember members (str "toString") then None
      else Some (str "[object Object]")
  end.

(** ToPrimitive: arrays and objects become their string. *)
Definition toPrimitive (v : value) : option value :=
  match v with
  | JArray _ | JObject _ => option_map JString (toString v)
  | _ => Some v
  end.

Definition isString (v : value) : bool :=
  match v with
  | JString _ => true
  | _ => false
  end.

(** [a + b]: concatenation once an operand is a string after
    ToPrimitive, the addition of Numbers otherwise; [None] when a
    conversion throws. *)
Definition plus (a b : value) : option value :=
  match toPrimitive a, toPrimitive b with
  | Some pa, Some pb =>
      if isString pa || isString pb then
        match toString pa, toString pb with
        | Some x, Some y => Some (JString (x ++ y))
        | _, _ => None
        end
      else Some (JNumber (addNumeric pa pb))
  | _, _ => None
  end.

End WithPlatform.
End Coercion.

(** ** The match of [/{.*}/] *)

Module Regex.

(** The longest run of code units other than line terminators at the
    head of [s] that ends with a closing brace: what the greedy [.*]
    followed by the brace matches there. *)
Fixpoint dotStarBrace (s : jsstring) : option jsstring :=
  match s with
  | [] => None
  | c :: r =>
      if isLineTerminator c then None
      else
        match dotStarBrace r with
        | Some m => Some (c :: m)
        | None => if (c =? 125)%N then Some [c] else None
        end
  end.

(** [s.match(/{.*}/)]: the match at the leftmost opening brace that has
    one; [None] is [null], the result is [match[0]]. *)
Fixpoint matchBraces (s : jsstring) : option jsstring :=
  match s with
  | [] => None
  | c :: r =>
      if (c =? 123)%N then
        match dotStarBrace r with
        | Some m => Some (c :: m)
        | None => matchBraces r
        end
      else matchBraces r
  end.

End Regex.

(** ** The component [App] *)

Module App.
Import Coercion Regex.

(** *** Data *)

Inductive Sender := User | Bot.

(** A message of the log. [sender] is absent and [isError] false on an
    object that never got the field. [text] is what the code stored: a
    string, or the [text] member of a decoded body as it came. *)
Record Message := {
  sender : option Sender;
  text : value;
  isError : bool
}.

(** The state of the component (lines 24-31). *)
Record AppState := {
  n8nWebhookUrl : jsstring;
  chatId : option jsstring;
  messages : list Message;
  input : jsstring;
  isLoading : bool;
  error : jsstring
}.

Definition botMessage (s : jsstring) : Message :=
  {| sender := Some Bot; text := JString s; isError := false |}.

Definition userMessage (s : jsstring) : Message :=
  {| sender := Some User; text := JString s; isError := false |}.

Definition initialState : AppState :=
  {| n8nWebhookUrl := [];
     chatId := None;
     messages :=
       [botMessage (str "Hello! Please enter your n8n Chat Trigger Webhook URL above to begin.")];
     input := [];
     isLoading := false;
     error := [] |}.

(** The request handed to [fetch]; [requestBody] is the object given to
    [JSON.stringify]. *)
Record Request := {
  requestUrl : jsstring;
  requestMethod : jsstring;
  requestHeaders : list (jsstring * jsstring);
  requestBody : value
}.

(** The body of a response as the reader delivers it: the chunks, then
    the end of the data, or a failed read with its message. *)
Record Body := {
  chunks : list (list byte);
  failure : option jsstring
}.

(** A response: [headersGet] is [response.headers.get], [body] is absent
    for a response without one ([response.body === null]). *)
Record Response := {
  status : N;
  headersGet : jsstring -> option jsstring;
  body : option Body
}.

(** [response.ok] *)
Definition ok (r : Response) : bool :=
  ((200 <=? status r) && (status r <=? 299))%N.

(** What [await fetch(...)] gives: a rejection with its message, or a
    response. *)
Inductive FetchResult :=
| Rejects (message : jsstring)
| Responds (r : Response).

(** The remote endpoint. *)
Definition Network := Request -> FetchResult.

(** What a send acts on: the state of the component, the requests made
    so far, and whether an updater of the log threw (React then drops
    the update and unmounts the component). *)
Record World := {
  app : AppState;
  sent : list Request;
  renderFailed : bool
}.

Definition start (st : AppState) : World :=
  {| app := st; sent := []; renderFailed := false |}.

(** *** Computations that change the state and may throw *)

Inductive Completion (A : Type) :=
| Normal (a : A)
| Throw (message : jsstring).
Arguments Normal {A} a.
Arguments Throw {A} message.

Definition M (A : Type) := World -> Completion A * World.

Definition ret {A} (a : A) : M A := fun w => (Normal a, w).

Definition throw {A} (message : jsstring) : M A := fun w => (Throw message, w).

Definition bind {A B} (c : M A) (k : A -> M B) : M B :=
  fun w =>
    match c w with
    | (Normal a, w1) => k a w1
    | (Throw e, w1) => (Throw e, w1)
    end.

Notation "x <- c1 ;; c2" := (bind c1 (fun x => c2))
  (at level 61, c1 at next level, right associativity).
Notation "c1 ;; c2" := (bind c1 (fun _ => c2))
  (at level 61, right associativity).

(** [try { body } catch (err) { handler }], [err.message] bound. *)
Definition tryCatch {A} (body : M A) (handler : jsstring -> M A) : M A :=
  fun w =>
    match body w with
    | (Normal a, w1) => (Normal a, w1)
    | (Throw e, w1) => handler e w1
    end.

(** [try { body } finally { final }] *)
Definition tryFinally {A} (body : M A) (final : M unit) : M A :=
  fun w =>
    let (c, w1) := body w in
    match final w1 with
    | (Normal _, w2) => (c, w2)
    | (Throw e, w2) => (Throw e, w2)
    end.

(** [for (const x of l) { f }] *)
Fixpoint forEach {A} (f : A -> M unit) (l : list A) : M unit :=
  match l with
  | [] => ret tt
  | x :: r => f x ;; forEach f r
  end.

Definition onApp (f : AppState -> AppState) : M unit :=
  fun w => (Normal tt,
            {| app := f (app w); sent := sent w; renderFailed := renderFailed w |}).

Definition setChatId (c : option jsstring) : M unit :=
  onApp (fun st =>
    {| n8nWebhookUrl := n8nWebhookUrl st; chatId := c; messages := messages st;
       input := input st; isLoading := isLoading st; error := error st |}).

Definition setInput (s : jsstring) : M unit :=
  onApp (fun st =>
    {| n8nWebhookUrl := n8nWebhookUrl st; chatId := chatId st;
       messages := messages st;
       input := s; isLoading := isLoading st; error := error st |}).

Definition setN8nWebhookUrl (s : jsstring) : M unit :=
  onApp (fun st =>
    {| n8nWebhookUrl := s; chatId := chatId st; messages := messages st;
       input := input st; isLoading := isLoading st; error := error st |}).

Definition setIsLoading (b : bool) : M unit :=
  onApp (fun st =>
    {| n8nWebhookUrl := n8nWebhookUrl st; chatId := chatId st;
       messages := messages st;
       input := input st; isLoading := b; error := error st |}).

Definition setError (s : jsstring) : M unit :=
  onApp (fun st =>
    {| n8nWebhookUrl := n8nWebhookUrl st; chatId := chatId st;
       messages := messages st;
       input := input st; isLoading := isLoading st; error := s |}).

Definition withMessages (l : list Message) (st : AppState) : AppState :=
  {| n8nWebhookUrl := n8nWebhookUrl st; chatId := chatId st; messages := l;
     input := input st; isLoading := isLoading st; error := error st |}.

(** [setMessages(prev => ...)]: the updater is run on the log; when it
    throws ([None]) the log keeps its value and the failure is noted. *)
Definition setMessages (updater : list Message -> option (list Message)) : M unit :=
  fun w =>
    match updater (messages (app w)) with
    | Some l =>
        (Normal tt,
         {| app := withMessages l (app w); sent := sent w;
            renderFailed := renderFailed w |})
    | None =>
        (Normal tt, {| app := app w; sent := sent w; renderFailed := true |})
    end.

(** [await fetch(url, init)] against the endpoint [net]. *)
Definition fetch (net : Network) (req : Request) : M Response :=
  fun w =>
    let w1 := {| app := app w; sent := sent w ++ [req];
                 renderFailed := renderFailed w |} in
    match net req with
    | Rejects e => (Throw e, w1)
    | Responds r => (Normal r, w1)
    end.

(** *** The updaters of the log *)

(** [prev => [...prev, m]] *)
Definition appendMessage (m : Message) (prev : list Message)
  : option (list Message) :=
  Some (prev ++ [m]).

(** [prev[prev.length - 1]], [undefined] on an empty log. *)
Definition lastMessage (prev : list Message) : option Message :=
  nth_error prev (List.length prev - 1).

(** [prev.slice(0, -1)] *)
Definition allButLast (prev : list Message) : list Message := removelast prev.

(** Lines 95-99: [{ ...lastMessage, text: data.text }] in the place of
    the last message. *)
Definition setText (v : value) (prev : list Message) : option (list Message) :=
  let updatedLastMessage :=
    match lastMessage prev with
    | Some m => {| sender := sender m; text := v; isError := isError m |}
    | None => {| sender := None; text := v; isError := false |}
    end in
  Some (allButLast prev ++ [updatedLastMessage]).

(** Lines 156-160: [{ ...lastMessage, text: userFriendlyError, isError: true }]. *)
Definition sealError (userFriendlyError : jsstring) (prev : list Message)
  : option (list Message) :=
  let updatedLastMessage :=
    match lastMessage prev with
    | Some m =>
        {| sender := sender m; text := JString userFriendlyError; isError := true |}
    | None =>
        {| sender := None; text := JString userFriendlyError; isError := true |}
    end in
  Some (allButLast prev ++ [updatedLastMessage]).

Section Engine.
Context {platform : Platform}.

(** Lines 123-127: [{ ...lastMessage, text: lastMessage.text + data.text }].
    Reading [text] of the [undefined] last message of an empty log
    throws, and so does a conversion to string that finds no method. *)
Definition appendText (v : value) (prev : list Message) : option (list Message) :=
  match lastMessage prev with
  | None => None
  | Some m =>
      match plus (text m) v with
      | Some t =>
          Some (allButLast prev
                  ++ [{| sender := sender m; text := t; isError := isError m |}])
      | None => None
      end
  end.

(** *** Decoding *)

(** [JSON.parse(s)] *)
Definition jsonParse (s : jsstring) : M value :=
  match Json.parse s with
  | Some v => ret v
  | None => throw (syntaxErrorMessage s)
  end.

(** [x.name] for a decoded [x] and a name, such as [text] and
    [message], that no prototype defines: the member of an object,
    [undefined] ([None]) on any other value, a TypeError on [null]. *)
Definition getField (x : value) (name : jsstring) : M (option value) :=
  match x with
  | JNull => throw (nullReadMessage name)
  | JObject members => ret (getMember members name)
  | _ => ret None
  end.

(** [await response.text()] *)
Definition responseText (r : Response) : M jsstring :=
  match body r with
  | None => ret []
  | Some b =>
      match failure b with
      | Some e => throw e
      | None => ret (Utf8.decodeAll (List.concat (chunks b)))
      end
  end.

(** [await response.json()] *)
Definition responseJson (r : Response) : M value :=
  t <- responseText r ;; jsonParse t.

(** *** The Event Frame Parser and the Stream Reassembler (lines 103-135) *)

(** Lines 116-117: the payload of a [data:] line. *)
Definition dataPayload (line : jsstring) : option jsstring :=
  if startsWith (trim line) (str "data:")
  then Some (substring 5 (trim line))
  else None.

(** Lines 116-133, the body of the loop over the lines. *)
Definition processLine (line : jsstring) : M unit :=
  match dataPayload line with
  | Some jsonString =>
      if nonEmpty jsonString then
        tryCatch
          (data <- jsonParse jsonString ;;
           field <- getField data (str "text") ;;
           match field with
           | Some v => if truthy v then setMessages (appendText v) else ret tt
           | None => ret tt
           end)
          (fun _ => ret tt)
      else ret tt
  | None => ret tt
  end.

(** Lines 107-135: the read loop over what the reader delivers. *)
Fixpoint readLoop (lb : LineBuffer.t) (chunks : list (list byte))
    (failure : option jsstring) : M unit :=
  match chunks with
  | [] =>
      match failure with
      | Some e => throw e
      | None => ret tt
      end
  | value :: rest =>
      let (lines, lb1) := LineBuffer.push lb value in
      forEach processLine lines ;;
      readLoop lb1 rest failure
  end.

(** Lines 103-135. *)
Definition eventStreamPath (r : Response) : M unit :=
  match body r with
  | None => throw (nullReadMessage (str "getReader"))
  | Some b => readLoop LineBuffer.empty (chunks b) (failure b)
  end.

(** Lines 93-100. *)
Definition singleObjectPath (r : Response) : M unit :=
  data <- responseJson r ;;
  field <- getField data (str "text") ;;
  match field with
  | Some v => if truthy v then setMessages (setText v) else ret tt
  | None => ret tt
  end.

(** *** The Response Classifier (lines 89-91) *)

Inductive ResponseKind := SingleObject | EventStream.

Definition classify (contentType : option jsstring) : ResponseKind :=
  match contentType with
  | Some ct =>
      if nonEmpty ct && includes ct (str "application/json")
      then SingleObject else EventStream
  | None => EventStream
  end.

(** Lines 89-136. *)
Definition handleResponse (r : Response) : M unit :=
  match classify (headersGet r (str "content-type")) with
  | SingleObject => singleObjectPath r
  | EventStream => eventStreamPath r
  end.

(** *** The Error Normalizer (lines 141-153) *)

Definition genericError (message : jsstring) : jsstring :=
  str "Error: " ++ message
    ++ str ". Please check the webhook URL and your n8n workflow.".

Definition checklist : jsstring :=
  str "Common issues to check:" ++ [LF]
    ++ str "1. Is the workflow active?" ++ [LF]
    ++ str "2. Is the API key in your Google Gemini node valid?" ++ [LF]
    ++ str "3. Is the model name correct?" ++ [LF]
    ++ str "4. Check the workflow execution logs in n8n for more details.".

Definition workflowError (message : jsstring) : jsstring :=
  str "An error occurred in your n8n workflow: "
    ++ [QUOTE] ++ message ++ [QUOTE] ++ [LF; LF] ++ checklist.

(** A template literal's conversion of a value to a string. *)
Definition interpolate (v : value) : M jsstring :=
  match toString v with
  | Some s => ret s
  | None => throw (str "Cannot convert object to primitive value")
  end.

Definition normalize (message : jsstring) : M jsstring :=
  match matchBraces message with
  | Some m =>
      tryCatch
        (errorJson <- jsonParse m ;;
         field <- getField errorJson (str "message") ;;
         match field with
         | Some v =>
             if truthy v then
               s <- interpolate v ;; ret (workflowError s)
             else ret (genericError message)
         | None => ret (genericError message)
         end)
        (fun _ => ret (genericError message))
  | None => ret (genericError message)
  end.

(** Lines 138-160, the [catch] block. *)
Definition handleError (message : jsstring) : M unit :=
  userFriendlyError <- normalize message ;;
  setError userFriendlyError ;;
  setMessages (sealError userFriendlyError).

(** *** [handleSendMessage] (lines 43-164) *)

Definition CHAT_ID_HEADER : jsstring := str "X-N8N-CHAT-ID".

(** Lines 63-66. *)
Definition requestHeadersFor (chatId : option jsstring)
  : list (jsstring * jsstring) :=
  let headers := [(str "Content-Type", str "application/json")] in
  match chatId with
  | Some c => if nonEmpty c then headers ++ [(CHAT_ID_HEADER, c)] else headers
  | None => headers
  end.

(** Lines 69-73. *)
Definition requestFor (props : AppState) : Request :=
  {| requestUrl := n8nWebhookUrl props;
     requestMethod := str "POST";
     requestHeaders := requestHeadersFor (chatId props);
     requestBody := JObject [(str "message", JString (input props))] |}.

(** [chatId] as a condition: neither [null] nor empty. *)
Definition holdsChatId (chatId : option jsstring) : bool :=
  match chatId with
  | Some c => nonEmpty c
  | None => false
  end.

(** Lines 76-79. *)
Definition checkStatus (response : Response) : M unit :=
  if ok response then ret tt
  else
    errorText <- responseText response ;;
    throw (str "Network response was not ok: " ++ ofN (status response)
             ++ str " " ++ errorText).

(** The Correlation Tracker (lines 83-86). *)
Definition trackCorrelation (props : AppState) (response : Response) : M unit :=
  match headersGet response CHAT_ID_HEADER with
  | Some newChatId =>
      if nonEmpty newChatId && negb (holdsChatId (chatId props))
      then setChatId (Some newChatId) else ret tt
  | None => ret tt
  end.

(** Lines 62-136, the [try] block. *)
Definition exchange (net : Network) (props : AppState) : M unit :=
  response <- fetch net (requestFor props) ;;
  checkStatus response ;;
  trackCorrelation props response ;;
  handleResponse response.

Definition configurationError : jsstring :=
  str "Please enter a valid n8n Webhook URL to start chatting.".

(** Line 45 and line 47 pass: the send goes out. *)
Definition dispatches (props : AppState) : bool :=
  nonEmpty (trim (input props)) && negb (isLoading props)
  && nonEmpty (trim (n8nWebhookUrl props))
  && startsWith (n8nWebhookUrl props) (str "http").

(** [handleSendMessage], created by the render of state [props], whose
    [input], [isLoading], [n8nWebhookUrl] and [chatId] it reads. *)
Definition handleSendMessage (net : Network) (props : AppState) : M unit :=
  if negb (nonEmpty (trim (input props))) || isLoading props then ret tt
  else if negb (nonEmpty (trim (n8nWebhookUrl props)))
          || negb (startsWith (n8nWebhookUrl props) (str "http"))
  then setError configurationError
  else
    setError [] ;;
    setMessages (appendMessage (userMessage (input props))) ;;
    setInput [] ;;
    setIsLoading true ;;
    setMessages (appendMessage (botMessage [])) ;;
    tryFinally
      (tryCatch (exchange net props) handleError)
      (setIsLoading false).

(** [handleNewChat] (lines 167-172) *)
Definition handleNewChat : M unit :=
  setChatId None ;;
  setMessages (fun _ =>
    Some [botMessage (str "New chat started. Your conversation history has been cleared.")]) ;;
  setError [] ;;
  setIsLoading false.

(** *** Events *)

(** The form is submitted: the handler of the current render runs to
    its end against the endpoint. *)
Definition submit (net : Network) (w : World) : World :=
  snd (handleSendMessage net (app w) w).

(** The user types into the message field (line 231). *)
Definition typeInput (s : jsstring) (w : World) : World :=
  snd (setInput s w).

(** The user types into the URL field (line 185). *)
Definition typeUrl (s : jsstring) (w : World) : World :=
  snd (setN8nWebhookUrl s w).

(** The user presses the new chat button. *)
Definition newChat (w : World) : World := snd (handleNewChat w).

End Engine.
End App.

(** ** The vocabulary of the properties *)

Module Spec.
Import App Coercion.

(** The text a byte stream decodes to, chunk after chunk, with the
    decoder of the read loop. *)
Definition streamText (bytes : list byte) : jsstring :=
  snd (Utf8.decode Utf8.fresh bytes).

(** A line holds no line feed. *)
Definition isLine (line : jsstring) : Prop := ~ In LF line.

(** The text of a stream of newline-terminated lines. *)
Definition terminated (lines : list jsstring) : jsstring :=
  List.concat (map (fun line => line ++ [LF]) lines).

(** [line] is a [data:] frame whose payload decodes to an object that
    carries the text fragment [t]. *)
Definition carries (line t : jsstring) : Prop :=
  isLine line /\
  exists payload members,
    dataPayload line = Some payload /\
    Json.parse payload = Some (JObject members) /\
    getMember members (str "text") = Some (JString t).

(** [line] is a [data:] frame whose payload fails to decode. *)
Definition malformed (line : jsstring) : Prop :=
  isLine line /\
  exists payload,
    dataPayload line = Some payload /\ Json.parse payload = None.

(** The frames of a stream that may hold malformed ones. *)
Inductive Frame :=
| Valid (line t : jsstring)
| Malformed (line : jsstring).

Definition frameLine (f : Frame) : jsstring :=
  match f with
  | Valid line _ => line
  | Malformed line => line
  end.

Definition frameText (f : Frame) : jsstring :=
  match f with
  | Valid _ t => t
  | Malformed _ => []
  end.

Definition frameOk (f : Frame) : Prop :=
  match f with
  | Valid line t => carries line t
  | Malformed line => malformed line
  end.

(** A parser with an accumulator consumes input when it succeeds. *)
Definition consuming {A} (p : jsstring -> A -> option (value * jsstring)) : Prop :=
  forall s acc v r, p s acc = Some (v, r) -> List.length r < List.length s.

(** [x] occurs in [s]. *)
Definition contains (s x : jsstring) : Prop :=
  exists before after, s = before ++ x ++ after.

(** [headers[name]] of the headers object of a request. *)
Fixpoint headerValue (headers : list (jsstring * jsstring)) (name : jsstring)
  : option jsstring :=
  match headers with
  | [] => None
  | (k, v) :: rest =>
      match headerValue rest name with
      | Some w => Some w
      | None => if strEqb k name then Some v else None
      end
  end.

(** An event-stream response of status 200 delivering [chunks]. *)
Definition streams (r : Response) (chunks : list (list byte)) : Prop :=
  ok r = true /\
  classify (headersGet r (str "content-type")) = EventStream /\
  body r = Some {| App.chunks := chunks; failure := None |}.

(** The bytes of a body, when every read of it succeeds. *)
Definition bodyBytes (r : Response) : option (list byte) :=
  match body r with
  | None => Some []
  | Some b =>
      match failure b with
      | Some _ => None
      | None => Some (List.concat (chunks b))
      end
  end.

(** The message of the error thrown on a response that is not ok
    (line 78). *)
Definition notOkMessage (r : Response) (errorText : jsstring) : jsstring :=
  str "Network response was not ok: " ++ ofN (status r) ++ str " " ++ errorText.

(** The world with [l] for its log. *)
Definition withLog (l : list Message) (w : World) : World :=
  {| app := withMessages l (app w); sent := sent w;
     renderFailed := renderFailed w |}.

(** The message with [v] for its text. *)
Definition withText (v : value) (m : Message) : Message :=
  {| sender := sender m; text := v; isError := isError m |}.

(** The message sealed with an error text. *)
Definition sealed (e : jsstring) (m : Message) : Message :=
  {| sender := sender m; text := JString e; isError := true |}.

(** The world when the [try] block of a send that goes out is entered
    (lines 51-59). *)
Definition prepared (w : World) : World :=
  {| app := {| n8nWebhookUrl := n8nWebhookUrl (app w);
               chatId := chatId (app w);
               messages := (messages (app w) ++ [userMessage (input (app w))])
                             ++ [botMessage []];
               input := [];
               isLoading := true;
               error := [] |};
     sent := sent w;
     renderFailed := renderFailed w |}.

(** A computation keeps an invariant of the world, however it ends. *)
Definition preserves (I : World -> Prop) {A} (c : M A) : Prop :=
  forall w, I w -> I (snd (c w)).

(** A computation leaves the world as it is. *)
Definition pure {A} (c : M A) : Prop := forall w, snd (c w) = w.

(** The log is [base] followed by one message of sender [s]. *)
Definition logFrame (base : list Message) (s : option Sender) (w : World) : Prop :=
  exists m, messages (app w) = base ++ [m] /\ sender m = s.

(** The session holds the correlation identifier [c]. *)
Definition holds (c : option jsstring) (w : World) : Prop := chatId (app w) = c.

(** The requests made so far are [l]. *)
Definition sentIs (l : list Request) (w : World) : Prop := sent w = l.

(** The texts of the valid frames. *)
Fixpoint validTexts (frames : list Frame) : list jsstring :=
  match frames with
  | [] => []
  | Valid _ t :: rest => t :: validTexts rest
  | Malformed _ :: rest => validTexts rest
  end.

Section WithPlatform.
Context {platform : Platform}.

(** The turns of a session: the user types a text and submits it, the
    endpoint of that turn answers. *)
Fixpoint session (turns : list (jsstring * Network)) (w : World) : World :=
  match turns with
  | [] => w
  | (s, net) :: rest => session rest (submit net (typeInput s w))
  end.

End WithPlatform.
End Spec.

(** ** A platform and data to run the model on *)

Module Sample.
Import App Spec.
Local Open Scope string_scope.
Local Open Scope list_scope.

(** The integer a numeral denotes, when it is one below [2 ^ 53]. *)
Definition safeInteger (n : number) : option Z :=
  match n with
  | Dec neg m e =>
      if ((0 <=? e)%Z && (Z.of_N m * 10 ^ e <? 2 ^ 53)%Z)%bool
      then Some (if neg then (- (Z.of_N m * 10 ^ e))%Z else (Z.of_N m * 10 ^ e)%Z)
      else None
  | _ => None
  end.

Definition ofInteger (z : Z) : number :=
  Dec (z <? 0)%Z (Z.to_N (Z.abs z)) 0.

Definition toNumber (v : value) : number :=
  match v with
  | JNumber n => n
  | JBool true => Dec false 1 0
  | _ => Dec false 0 0
  end.

(** The wording of V8 for the errors; Numbers are printed and added on
    the integers below [2 ^ 53] only, every other Number is taken for
    NaN: the runs below hold no Number. *)
Definition v8 : Platform :=
  {| numberToString := fun n =>
       match safeInteger n with
       | Some z =>
           if (z <? 0)%Z then str "-" ++ ofN (Z.to_N (- z)) else ofN (Z.to_N z)
       | None => str "NaN"
       end;
     addNumeric := fun a b =>
       match safeInteger (toNumber a), safeInteger (toNumber b) with
       | Some x, Some y =>
           if (Z.abs (x + y) <? 2 ^ 53)%Z then ofInteger (x + y) else NaN
       | _, _ => NaN
       end;
     syntaxErrorMessage := fun _ => str "Unexpected token in JSON";
     nullReadMessage := fun name =>
       str "Cannot read properties of null (reading '" ++ name ++ str "')" |}.

Definition quoted (s : string) : jsstring := [QUOTE] ++ str s ++ [QUOTE].

(** [{"name":"s"}] *)
Definition object1 (name s : string) : jsstring :=
  str "{" ++ quoted name ++ str ":" ++ quoted s ++ str "}".

Definition quotedBytes (s : string) : list byte :=
  [x22] ++ Utf8.bytesOf s ++ [x22].

Definition object1Bytes (name s : string) : list byte :=
  Utf8.bytesOf "{" ++ quotedBytes name ++ Utf8.bytesOf ":" ++ quotedBytes s
    ++ Utf8.bytesOf "}".

Definition headers (l : list (string * string)) (name : jsstring) : option jsstring :=
  match find (fun kv => strEqb (str (fst kv)) name) l with
  | Some kv => Some (str (snd kv))
  | None => None
  end.

(** The state after the user entered a URL and typed [hello]. *)
Definition ready : World :=
  typeInput (str "hello")
    (typeUrl (str "https://n8n.example/webhook/chat") (start initialState)).

Definition respond (r : Response) : Network := fun _ => Responds r.

(** [data: {"text":"He"}] and [data: {"text":"llo"}], each ended by a
    line feed, delivered in two chunks cut inside the first line. *)
Definition helloLine1 : jsstring := str "data: " ++ object1 "text" "He".
Definition helloLine2 : jsstring := str "data: " ++ object1 "text" "llo".

Definition helloBytes : list byte :=
  Utf8.bytesOf "data: " ++ object1Bytes "text" "He" ++ [x0a]
    ++ Utf8.bytesOf "data: " ++ object1Bytes "text" "llo" ++ [x0a].

Definition helloChunks : list (list byte) :=
  [firstn 9 helloBytes; skipn 9 helloBytes].

Definition helloStream : Response :=
  {| status := 200;
     headersGet := headers [("content-type", "text/event-stream")];
     body := Some {| chunks := helloChunks; failure := None |} |}.

(** The same stream with a frame that is no JSON between the two. *)
Definition brokenLine : jsstring := str "data: {oops".

Definition brokenBytes : list byte :=
  Utf8.bytesOf "data: " ++ object1Bytes "text" "He" ++ [x0a]
    ++ Utf8.bytesOf "data: {oops" ++ [x0a]
    ++ Utf8.bytesOf "data: " ++ object1Bytes "text" "llo" ++ [x0a].

Definition brokenStream : Response :=
  {| status := 200;
     headersGet := headers [("content-type", "text/event-stream")];
     body := Some {| chunks := [firstn 30 brokenBytes; skipn 30 brokenBytes];
                     failure := None |} |}.

(** [Content-Type: application/json], body [{"text":"Hi there"}]. *)
Definition hiThere : Response :=
  {| status := 200;
     headersGet := headers [("content-type", "application/json")];
     body := Some {| chunks := [object1Bytes "text" "Hi there"]; failure := None |} |}.

(** Status 500, body [Workflow error: {"message":"Invalid API key"}]. *)
Definition invalidApiKey : Response :=
  {| status := 500;
     headersGet := headers [];
     body := Some {| chunks := [Utf8.bytesOf "Workflow error: "
                                  ++ object1Bytes "message" "Invalid API key"];
                     failure := None |} |}.

(** Status 500, body [{"message":""}]. *)
Definition emptyMessage : Response :=
  {| status := 500;
     headersGet := headers [];
     body := Some {| chunks := [object1Bytes "message" ""]; failure := None |} |}.

(** Status 500 and a correlation header [A]; status 200, a correlation
    header [B] and a JSON body. *)
Definition failsWithA : Response :=
  {| status := 500;
     headersGet := headers [("X-N8N-CHAT-ID", "A")];
     body := Some {| chunks := [Utf8.bytesOf "down"]; failure := None |} |}.

Definition answersWithA : Response :=
  {| status := 200;
     headersGet := headers [("X-N8N-CHAT-ID", "A"); ("content-type", "application/json")];
     body := Some {| chunks := [object1Bytes "text" "one"]; failure := None |} |}.

Definition answersWithB : Response :=
  {| status := 200;
     headersGet := headers [("X-N8N-CHAT-ID", "B"); ("content-type", "application/json")];
     body := Some {| chunks := [object1Bytes "text" "two"]; failure := None |} |}.

(** The state after the user entered a URL and typed blanks only. *)
Definition blank : World :=
  typeInput (str "   ")
    (typeUrl (str "https://n8n.example/webhook/chat") (start initialState)).

(** The state after the user typed [hello] with a URL that is no URL. *)
Definition noUrl : World :=
  typeInput (str "hello") (typeUrl (str "n8n.example") (start initialState)).

End Sample.

(** ** What the page shows of the state (lines 223-236) *)

Module View.
Import App.

(** Line 233: the message field is disabled while a send is pending
    and while no URL is entered. *)
Definition inputDisabled (st : AppState) : bool :=
  isLoading st || negb (nonEmpty (n8nWebhookUrl st)).

(** Line 236: the submit button is disabled while a send is pending
    and while the input is blank. *)
Definition submitDisabled (st : AppState) : bool :=
  isLoading st || negb (nonEmpty (trim (input st))).

(** *** [MessageContent] (lines 4-18)

    The pattern of line 6, with the flags [i] and [g]: a word boundary,
    then in a group the scheme [https?|ftp|file] in a group of its own,
    [://], any number of characters of the first class and one
    character of the second class. *)

Definition isAsciiLetter (c : N) : bool :=
  ((65 <=? c) && (c <=? 90) || (97 <=? c) && (c <=? 122))%N.

(** A word character, for the word boundary. *)
Definition isWordChar (c : N) : bool :=
  isAsciiLetter c || isDigit c || (c =? 95)%N.

(** The canonical form of a code unit when case is ignored, as far as
    the letters of the pattern go: only an ASCII letter is as one of
    them. *)
Definition upper (c : N) : N :=
  if ((97 <=? c) && (c <=? 122))%N then (c - 32)%N else c.

Fixpoint startsWithIgnoreCase (s p : jsstring) : bool :=
  match p, s with
  | [], _ => true
  | _ :: _, [] => false
  | c :: p', d :: s' => (upper c =? upper d)%N && startsWithIgnoreCase s' p'
  end.

(** The class of the characters inside a URL, and the class of its
    last character, which has no [?], [!], [:], [,], [.] and [;]. *)
Definition urlChar (c : N) : bool :=
  isAsciiLetter c || isDigit c || existsb (N.eqb c) (str "-+&@#/%?=~_|!:,.;").

Definition urlEnd (c : N) : bool :=
  isAsciiLetter c || isDigit c || existsb (N.eqb c) (str "-+&@#/%=~_|").

(** The length of what the greedy star and the last character match
    at the head of [t]: the longest run of characters of the first
    class that ends with one of the second. *)
Fixpoint urlTail (t : jsstring) : option nat :=
  match t with
  | [] => None
  | c :: r =>
      if urlChar c then
        match urlTail r with
        | Some n => Some (S n)
        | None => if urlEnd c then Some 1 else None
        end
      else None
  end.

(** What follows the scheme. *)
Definition afterScheme (t : jsstring) : option nat :=
  if startsWith t (str "://")
  then option_map (fun n => 3 + n) (urlTail (skipn 3 t))
  else None.

(** The schemes in the order the alternatives are tried: [https?]
    takes the [s] first. *)
Definition schemes : list jsstring :=
  [str "https"; str "http"; str "ftp"; str "file"].

Fixpoint firstScheme (candidates : list jsstring) (s : jsstring)
  : option (nat * nat) :=
  match candidates with
  | [] => None
  | p :: rest =>
      if startsWithIgnoreCase s p then
        match afterScheme (skipn (List.length p) s) with
        | Some n => Some (List.length p + n, List.length p)
        | None => firstScheme rest s
        end
      else firstScheme rest s
  end.

(** The word boundary between the code unit before ([None] at the
    start of the string) and the head of [s]. *)
Definition wordBoundary (prev : option N) (s : jsstring) : bool :=
  xorb (match prev with Some c => isWordChar c | None => false end)
       (match s with c :: _ => isWordChar c | [] => false end).

(** The match of the pattern at the head of [s], [prev] being the code
    unit before it: the length of the match and the length of its
    scheme. *)
Definition matchAt (prev : option N) (s : jsstring) : option (nat * nat) :=
  if wordBoundary prev s then firstScheme schemes s else None.

(** [content.split(urlRegex)] from a position on: [piece] is the text
    since the end of the last match, [skip] the code units left of a
    match found. A match gives the piece before it and its two groups,
    the URL and the scheme. *)
Fixpoint splitFrom (prev : option N) (skip : nat) (piece s : jsstring)
  : list jsstring :=
  match s with
  | [] => [piece]
  | c :: r =>
      match skip with
      | S k => splitFrom (Some c) k piece r
      | O =>
          match matchAt prev s with
          | Some (n, k) =>
              piece :: firstn n s :: firstn k s
                :: splitFrom (Some c) (n - 1) [] r
          | None => splitFrom (Some c) 0 (piece ++ [c]) r
          end
      end
  end.

Definition splitUrls (content : jsstring) : list jsstring :=
  splitFrom None 0 [] content.

(** [part.match(urlRegex)] finds a match. *)
Fixpoint matchesFrom (prev : option N) (s : jsstring) : bool :=
  match s with
  | [] => false
  | c :: r =>
      match matchAt prev s with
      | Some _ => true
      | None => matchesFrom (Some c) r
      end
  end.

Definition containsUrl (part : jsstring) : bool := matchesFrom None part.

(** What is rendered of a part: a link or the text as it is. *)
Inductive Part :=
| Text (s : jsstring)
| Link (href : jsstring).

(** Lines 10-15. *)
Definition renderPart (part : jsstring) : Part :=
  if nonEmpty part && containsUrl part then Link part else Text part.

(** [MessageContent({ content })]; a content that is no string has no
    [split] and the call throws ([None]). *)
Definition MessageContent (content : value) : option (list Part) :=
  match content with
  | JString s => Some (map renderPart (splitUrls s))
  | _ => None
  end.

(** The parts of a split without the schemes, every third one. *)
Fixpoint withoutSchemes (parts : list jsstring) : list jsstring :=
  match parts with
  | piece :: url :: scheme :: rest => piece :: url :: withoutSchemes rest
  | l => l
  end.

(** The parts of a split marked up by their place: texts, with after
    each but the last a link and the text of a scheme. *)
Fixpoint markup (parts : list jsstring) : list Part :=
  match parts with
  | piece :: url :: scheme :: rest =>
      Text piece :: Link url :: Text scheme :: markup rest
  | l => map Text l
  end.

(** *** Vocabulary for the facts about the split

    [lastOr ctx a]: the code unit before what follows [a], [ctx] being
    the one before [a]. *)
Definition lastOr (ctx : option N) (a : jsstring) : option N :=
  match rev a with c :: _ => Some c | [] => ctx end.

(** The pattern matches at no position of [a] in [a ++ rest], [prev]
    being the code unit before [a]. *)
Fixpoint noMatchIn (prev : option N) (a rest : jsstring) : bool :=
  match a with
  | [] => true
  | c :: a' =>
      match matchAt prev (a ++ rest) with
      | Some _ => false
      | None => noMatchIn (Some c) a' rest
      end
  end.

(** [s] does not start with a letter. *)
Definition noLetterAhead (s : jsstring) : Prop :=
  match s with c :: _ => isAsciiLetter c = false | [] => True end.

(** The state of a split that found no match since [piece] began, with
    [s] left to read and [prev] the code unit before [s]: [piece] began
    at the start of the content or where no letter follows. *)
Definition collecting (prev : option N) (piece s : jsstring) : Prop :=
  noMatchIn None piece s = true
  /\ match piece with
     | [] => prev = None \/ noLetterAhead s
     | _ :: _ => prev = lastOr None piece
     end.

(** The shape of a list of parts: pieces of text, with after each but
    the last a URL and its scheme; the URL is its scheme, [://] and a
    tail that is not empty, the scheme is one of the four up to the
    case of its letters. *)
Fixpoint wellSplit (parts : list jsstring) : Prop :=
  match parts with
  | [_] => True
  | _ :: url :: scheme :: rest =>
      (exists tail, tail <> [] /\ url = scheme ++ str "://" ++ tail)
      /\ In (map upper scheme) (map (map upper) schemes)
      /\ wellSplit rest
  | _ => False
  end.

End View.

(** ** More vocabulary: what a line of a stream contributes *)

Module Reading.
Import App Spec Coercion.

(** The [text] member the code uses of a decoded value (lines 94 and
    121): the one of an object, when it is truthy. *)
Definition usableText (v : value) : option value :=
  match v with
  | JObject members =>
      match getMember members (str "text") with
      | Some t => if truthy t then Some t else None
      | None => None
      end
  | _ => None
  end.

(** What a line of the stream appends (lines 116-121): nothing unless
    it is a [data:] line whose payload decodes to a value with a usable
    text. *)
Definition fragment (line : jsstring) : option value :=
  match dataPayload line with
  | Some payload =>
      match Json.parse payload with
      | Some v => usableText v
      | None => None
      end
  | None => None
  end.

(** The string a line appends, when what it appends is a string. *)
Definition lineText (line : jsstring) : jsstring :=
  match fragment line with
  | Some (JString t) => t
  | _ => []
  end.

(** The line appends a string or nothing. *)
Definition textual (line : jsstring) : Prop :=
  match fragment line with
  | Some (JString _) | None => True
  | Some _ => False
  end.

(** The bot message sealed with the error text [u]. *)
Definition errorReply (u : jsstring) : Message :=
  {| sender := Some Bot; text := JString u; isError := true |}.

(** No error is shown and the log is [base] followed by an open bot
    message. *)
Definition openReply (base : list Message) (w : World) : Prop :=
  error (app w) = []
  /\ exists m, messages (app w) = base ++ [m]
              /\ sender m = Some Bot /\ isError m = false.

(** Every code unit of [s] is white space. *)
Definition blankString (s : jsstring) : Prop := Forall (fun c => isWhiteSpace c = true) s.

(** No code unit of [s] is a line terminator. *)
Definition onOneLine (s : jsstring) : Prop :=
  Forall (fun c => isLineTerminator c = false) s.

(** The URL field holds [u] and the message field holds [i]. *)
Definition formIs (u i : jsstring) (w : World) : Prop :=
  n8nWebhookUrl (app w) = u /\ input (app w) = i.

(** The log is [base] followed by a bot message whose text is a
    string. *)
Definition stringReply (base : list Message) (w : World) : Prop :=
  exists m s, messages (app w) = base ++ [m]
              /\ sender m = Some Bot /\ text m = JString s.

End Reading.

(** ** More data to run the model on *)

Module Sample2.
Import App Spec Sample.
Local Open Scope string_scope.
Local Open Scope list_scope.

(** An event stream as servers send it: an [event:] line, a [data:]
    line ended by CR LF, a blank line, a [data:] line decoding to
    [null], and a last [data:] line that no line feed ends. *)
Definition sseBytes : list byte :=
  Utf8.bytesOf "event: message" ++ [x0a]
    ++ Utf8.bytesOf "data: " ++ object1Bytes "text" "Hi" ++ [x0d; x0a]
    ++ [x0a]
    ++ Utf8.bytesOf "data: null" ++ [x0a]
    ++ Utf8.bytesOf "data: " ++ object1Bytes "text" "lost".

Definition sseLines : list jsstring :=
  [str "event: message";
   str "data: " ++ object1 "text" "Hi" ++ [13%N];
   [];
   str "data: null"].

Definition sseTail : jsstring := str "data: " ++ object1 "text" "lost".

Definition sseStream : Response :=
  {| status := 200;
     headersGet := headers [("content-type", "text/event-stream")];
     body := Some {| chunks := [firstn 20 sseBytes; skipn 20 sseBytes];
                     failure := None |} |}.

(** A stream that delivers a frame and then fails. *)
Definition cutStream : Response :=
  {| status := 200;
     headersGet := headers [("content-type", "text/event-stream")];
     body := Some {| chunks := [Utf8.bytesOf "data: " ++ object1Bytes "text" "He" ++ [x0a]];
                     failure := Some (str "network error") |} |}.

(** [Content-Type: application/json], body [{"reply":"x"}]. *)
Definition noText : Response :=
  {| status := 200;
     headersGet := headers [("content-type", "application/json")];
     body := Some {| chunks := [object1Bytes "reply" "x"]; failure := None |} |}.

(** [Content-Type: application/json], body [oops]. *)
Definition notJson : Response :=
  {| status := 200;
     headersGet := headers [("content-type", "application/json")];
     body := Some {| chunks := [Utf8.bytesOf "oops"]; failure := None |} |}.

(** An endpoint that cannot be reached. *)
Definition unreachable : Network := fun _ => Rejects (str "Failed to fetch").

(** The state after a first send answered with the identifier [A]. *)
Definition afterA : World :=
  @submit v8 (respond answersWithA) ready.

(** The state after a send answered with [Hi there]. *)
Definition greeted : World :=
  @submit v8 (respond hiThere) ready.

(** [Content-Type: application/json], body [{"text":true}]. *)
Definition textTrue : Response :=
  {| status := 200;
     headersGet := headers [("content-type", "application/json")];
     body := Some {| chunks := [Utf8.bytesOf "{" ++ quotedBytes "text"
                                  ++ Utf8.bytesOf ":true}"];
                     failure := None |} |}.

(** A text with a link in it, and the error text of a failed workflow. *)
Definition linkContent : jsstring := str "see https://x.com ok".

Definition workflowFailure : jsstring :=
  str "Network response was not ok: 500 Workflow error: "
    ++ object1 "message" "Invalid API key".

End Sample2.

(** * Properties *)

(** ** Splitting into lines *)

Module SplitFacts.
Import Spec.

Lemma split_not_nil (s : jsstring) : split s <> [].
Proof.
  destruct s as [|c r]; simpl; [discriminate|].
  destruct (c =? LF)%N; [discriminate|].
  destruct (split r); discriminate.
Qed.

Lemma last_cons_not_nil {A} (x : A) l d : l <> [] -> last (x :: l) d = last l d.
Proof. destruct l; [congruence|reflexivity]. Qed.

Lemma removelast_cons_not_nil {A} (x : A) l :
  l <> [] -> removelast (x :: l) = x :: removelast l.
Proof. destruct l; [congruence|reflexivity]. Qed.

Lemma last_app_not_nil {A} (l l' : list A) d : l' <> [] -> last (l ++ l') d = last l' d.
Proof.
  intros Hne. induction l as [|x l IH]; [reflexivity|].
  simpl app. rewrite last_cons_not_nil; [exact IH|].
  destruct l; simpl; [exact Hne|discriminate].
Qed.

(** Splitting a text in two steps: the lines of the head but the last,
    then the lines of its last segment followed by the tail. *)
Lemma split_app (a b : jsstring) :
  split (a ++ b) = removelast (split a) ++ split (last (split a) [] ++ b).
Proof.
  induction a as [|c a IH]; [reflexivity|].
  simpl. destruct (c =? LF)%N eqn:Hc.
  - rewrite removelast_cons_not_nil by apply split_not_nil.
    rewrite last_cons_not_nil by apply split_not_nil.
    simpl. now rewrite IH.
  - rewrite IH. pose proof (split_not_nil a) as Hne.
    destruct (split a) as [|h [|h' t]]; [congruence| |].
    + simpl. now rewrite Hc.
    + simpl consHead at 2 3. cbv beta iota.
      rewrite removelast_cons_not_nil by discriminate.
      rewrite last_cons_not_nil by discriminate.
      rewrite (@removelast_cons_not_nil _ (c :: h)) by discriminate.
      rewrite (@last_cons_not_nil _ (c :: h)) by discriminate.
      reflexivity.
Qed.

Lemma split_isLine (s : jsstring) : isLine s -> split s = [s].
Proof.
  unfold isLine. induction s as [|c s IH]; intros Hno; [reflexivity|].
  simpl. destruct (N.eqb_spec c LF) as [->|Hc].
  - exfalso. apply Hno. now left.
  - rewrite IH; [reflexivity|]. intros Hin. apply Hno. now right.
Qed.

Lemma split_line (line rest : jsstring) :
  isLine line -> split (line ++ LF :: rest) = line :: split rest.
Proof.
  unfold isLine. induction line as [|c l IH]; intros Hno.
  - reflexivity.
  - simpl. destruct (N.eqb_spec c LF) as [->|Hc].
    + exfalso. apply Hno. now left.
    + rewrite IH; [reflexivity|]. intros Hin. apply Hno. now right.
Qed.

Lemma split_terminated (lines : list jsstring) (rest : jsstring) :
  Forall isLine lines -> split (terminated lines ++ rest) = lines ++ split rest.
Proof.
  induction 1 as [|line lines Hl _ IH]; [reflexivity|].
  unfold terminated in *. simpl. rewrite <- !app_assoc. simpl.
  rewrite split_line by assumption. now rewrite IH.
Qed.

Lemma consHead_isLine c segs :
  c <> LF -> Forall isLine segs -> Forall isLine (consHead c segs).
Proof.
  intros Hc Hs. destruct Hs as [|h t Hh Ht]; simpl.
  - constructor; [|constructor]. intros [Heq|[]]. congruence.
  - constructor; [|assumption]. intros [Heq|Hin]; [congruence|now apply Hh].
Qed.

Lemma split_segments (s : jsstring) : Forall isLine (split s).
Proof.
  induction s as [|c s IH]; simpl.
  - constructor; [intros []|constructor].
  - destruct (N.eqb_spec c LF) as [->|Hc].
    + constructor; [intros []|assumption].
    + now apply consHead_isLine.
Qed.

Lemma last_split_isLine (s : jsstring) : isLine (last (split s) []).
Proof.
  pose proof (split_segments s) as Hall.
  pose proof (split_not_nil s) as Hne.
  destruct (exists_last Hne) as [l [x Heq]]. rewrite Heq in *.
  rewrite last_last. apply Forall_app in Hall. destruct Hall as [_ Hx].
  now inversion Hx.
Qed.

End SplitFacts.

(** ** The fuel of the JSON parser *)

Module JsonFacts.
Import Spec.

Lemma dropWhile_length p s : List.length (dropWhile p s) <= List.length s.
Proof.
  induction s as [|c s IH]; simpl; [lia|]. destruct (p c); simpl; lia.
Qed.

Lemma skipWs_length s : List.length (skipWs s) <= List.length s.
Proof. apply dropWhile_length. Qed.

Lemma skipWs_cons s c r : skipWs s = c :: r -> List.length r < List.length s.
Proof.
  intros H. pose proof (skipWs_length s) as Hl. rewrite H in Hl. simpl in Hl. lia.
Qed.

(** Case analysis on what a successful result was computed from. *)
Ltac break :=
  repeat match goal with
  | H : Some _ = Some _ |- _ => injection H as ? ?; subst
  | H : (_, _) = (_, _) |- _ => injection H as ? ?; subst
  | H : None = Some _ |- _ => discriminate H
  | H : context [match ?x with _ => _ end] |- _ =>
      match type of H with
      | _ = Some _ => destruct x eqn:?
      | _ = (_, _) => destruct x eqn:?
      end
  end.

Lemma stringBody_length_aux n : forall s, List.length s <= n -> forall t r,
  stringBody s = Some (t, r) -> List.length r < List.length s.
Proof.
  induction n as [|n IH]; intros s Hn t r H.
  - destruct s; [discriminate H|simpl in Hn; lia].
  - destruct s as [|c s]; simpl in H; [discriminate|]. simpl in Hn.
    break; simpl;
      try match goal with
      | H : stringBody ?x = Some _ |- _ => apply IH in H; simpl in *; lia
      end; try lia.
Qed.

Lemma stringBody_length s t r :
  stringBody s = Some (t, r) -> List.length r < List.length s.
Proof. apply (stringBody_length_aux (List.length s)). lia. Qed.

Lemma digits_length s : forall ds r,
  digits s = (ds, r) -> List.length r <= List.length s.
Proof.
  induction s as [|c s IH]; simpl; intros ds r H.
  - injection H as <- <-. simpl. lia.
  - destruct (isDigit c).
    + destruct (digits s) as [ds' r'] eqn:E. injection H as <- <-.
      specialize (IH _ _ eq_refl). lia.
    + injection H as <- <-. simpl. lia.
Qed.

Lemma expect_length lit : forall s r,
  expect lit s = Some r -> List.length r <= List.length s.
Proof.
  induction lit as [|c lit IH]; intros s r H; simpl in H.
  - destruct s; injection H as <-; lia.
  - destruct s as [|d s]; [discriminate|].
    destruct (c =? d)%N; [|discriminate]. apply IH in H. simpl. lia.
Qed.

Lemma signPart_length s b r : signPart s = (b, r) -> List.length r <= List.length s.
Proof. unfold signPart. intros H. break; simpl; lia. Qed.

Lemma expSign_length s b r : expSign s = (b, r) -> List.length r <= List.length s.
Proof. unfold expSign. intros H. break; simpl; lia. Qed.

Lemma intPart_length s ds r :
  intPart s = Some (ds, r) -> List.length r < List.length s.
Proof.
  unfold intPart. intros H. break; simpl; try lia.
  match goal with H : digits _ = _ |- _ => apply digits_length in H end. lia.
Qed.

Lemma fracPart_length s ds r :
  fracPart s = Some (ds, r) -> List.length r <= List.length s.
Proof.
  unfold fracPart. intros H. break; simpl; try lia;
  match goal with H : digits _ = _ |- _ => apply digits_length in H end; lia.
Qed.

Lemma expPart_length s e r :
  expPart s = Some (e, r) -> List.length r <= List.length s.
Proof.
  unfold expPart. intros H. break; simpl; try lia;
  repeat match goal with
  | H : digits _ = _ |- _ => apply digits_length in H
  | H : expSign _ = _ |- _ => apply expSign_length in H
  end; lia.
Qed.

Lemma numberLiteral_length s n r :
  numberLiteral s = Some (n, r) -> List.length r < List.length s.
Proof.
  unfold numberLiteral. intros H. break.
  repeat match goal with
  | H : signPart _ = _ |- _ => apply signPart_length in H
  | H : intPart _ = _ |- _ => apply intPart_length in H
  | H : fracPart _ = _ |- _ => apply fracPart_length in H
  | H : expPart _ = _ |- _ => apply expPart_length in H
  end. lia.
Qed.


Ltac lengths :=
  repeat match goal with
  | _ : context [skipWs ?s] |- _ =>
      lazymatch goal with
      | _ : List.length (skipWs s) <= List.length s |- _ => fail
      | _ => pose proof (skipWs_length s)
      end
  | |- context [skipWs ?s] =>
      lazymatch goal with
      | _ : List.length (skipWs s) <= List.length s |- _ => fail
      | _ => pose proof (skipWs_length s)
      end
  end;
  repeat match goal with
  | H : skipWs _ = _ :: _ |- _ => rewrite H in *
  | H : stringBody _ = Some _ |- _ => apply stringBody_length in H
  | H : numberLiteral _ = Some _ |- _ => apply numberLiteral_length in H
  | H : expect _ _ = Some _ |- _ => apply expect_length in H
  end;
  simpl in *.

Section Bodies.
Variable members members' :
  jsstring -> list (jsstring * value) -> option (value * jsstring).
Variable elements elements' :
  jsstring -> list value -> option (value * jsstring).
Variable element element' : jsstring -> option (value * jsstring).

Lemma valueBody_consumes s v r :
  consuming members -> consuming elements ->
  valueBody members elements s = Some (v, r) -> List.length r < List.length s.
Proof.
  intros Hm He H. unfold valueBody, option_map in H.
  pose proof (skipWs_length s).
  break;
    repeat match goal with
    | H : members _ _ = Some _ |- _ => apply Hm in H
    | H : elements _ _ = Some _ |- _ => apply He in H
    end; lengths; lia.
Qed.

Lemma elementsBody_consumes s acc v r :
  (forall s v r, element s = Some (v, r) -> List.length r < List.length s) ->
  consuming elements ->
  elementsBody element elements s acc = Some (v, r) ->
  List.length r < List.length s.
Proof.
  intros Hv He H. unfold elementsBody in H.
  break;
    repeat match goal with
    | H : element _ = Some _ |- _ => apply Hv in H
    | H : elements _ _ = Some _ |- _ => apply He in H
    end; lengths; lia.
Qed.

Lemma membersBody_consumes s acc v r :
  (forall s v r, element s = Some (v, r) -> List.length r < List.length s) ->
  consuming members ->
  membersBody element members s acc = Some (v, r) ->
  List.length r < List.length s.
Proof.
  intros Hv Hm H. unfold membersBody in H.
  break;
    repeat match goal with
    | H : element _ = Some _ |- _ => apply Hv in H
    | H : members _ _ = Some _ |- _ => apply Hm in H
    end; lengths; lia.
Qed.

Lemma valueBody_ext s :
  (forall s' acc, List.length s' < List.length s -> members s' acc = members' s' acc) ->
  (forall s' acc, List.length s' < List.length s -> elements s' acc = elements' s' acc) ->
  valueBody members elements s = valueBody members' elements' s.
Proof.
  intros Hm He. unfold valueBody.
  destruct (skipWs s) as [|c r] eqn:E; [reflexivity|].
  destruct (c =? 123)%N.
  { destruct (skipWs r) as [|d r1] eqn:E1; [reflexivity|].
    destruct (d =? 125)%N; [reflexivity|]. rewrite <- E1. apply Hm. lengths. lia. }
  destruct (c =? 91)%N; [|reflexivity].
  destruct (skipWs r) as [|d r1] eqn:E1; [reflexivity|].
  destruct (d =? 93)%N; [reflexivity|]. apply He. lengths. lia.
Qed.

Lemma elementsBody_ext s acc :
  (forall v r, element s = Some (v, r) -> List.length r < List.length s) ->
  element s = element' s ->
  (forall s' acc, List.length s' + 2 <= List.length s ->
     elements s' acc = elements' s' acc) ->
  elementsBody element elements s acc = elementsBody element' elements' s acc.
Proof.
  intros Hc Hv He. unfold elementsBody. rewrite <- Hv.
  destruct (element s) as [[v r]|]; [|reflexivity].
  specialize (Hc v r eq_refl).
  destruct (skipWs r) as [|c r1] eqn:E1; [reflexivity|].
  destruct (c =? 44)%N; [|reflexivity]. apply He. lengths. lia.
Qed.

Lemma membersBody_ext s acc :
  (forall s' v r, element s' = Some (v, r) -> List.length r < List.length s') ->
  (forall s', List.length s' + 3 <= List.length s -> element s' = element' s') ->
  (forall s' acc, List.length s' + 5 <= List.length s ->
     members s' acc = members' s' acc) ->
  membersBody element members s acc = membersBody element' members' s acc.
Proof.
  intros Hc Hv Hm. unfold membersBody.
  destruct s as [|q s1]; [reflexivity|].
  destruct (q =? 34)%N; [|reflexivity].
  destruct (stringBody s1) as [[key r]|] eqn:E; [|reflexivity].
  destruct (skipWs r) as [|c r1] eqn:E1; [reflexivity|].
  destruct (c =? 58)%N; [|reflexivity].
  lengths.
  rewrite <- Hv by lia.
  destruct (element r1) as [[v r2]|] eqn:E2; [|reflexivity].
  apply Hc in E2.
  destruct (skipWs r2) as [|d r3] eqn:E3; [reflexivity|].
  destruct (d =? 44)%N; [|reflexivity]. apply Hm. lengths. lia.
Qed.

End Bodies.

Lemma parsers_consume fuel :
  (forall s v r, parseValue fuel s = Some (v, r) -> List.length r < List.length s)
  /\ consuming (parseElements fuel)
  /\ consuming (parseMembers fuel).
Proof.
  induction fuel as [|f (IV & IE & IM)].
  - repeat split; intros; discriminate.
  - repeat split.
    + intros s v r. simpl. now apply valueBody_consumes.
    + intros s acc v r. simpl. now apply elementsBody_consumes.
    + intros s acc v r. simpl. now apply membersBody_consumes.
Qed.

(** Beyond [2 * length s + 1] more fuel changes nothing. *)
Lemma fuel_step f :
  (forall s, 2 * List.length s + 1 <= f -> parseValue (S f) s = parseValue f s)
  /\ (forall s acc, 2 * List.length s + 2 <= f ->
        parseElements (S f) s acc = parseElements f s acc)
  /\ (forall s acc, 2 * List.length s + 2 <= f ->
        parseMembers (S f) s acc = parseMembers f s acc).
Proof.
  induction f as [|f (IV & IE & IM)].
  - repeat split; intros; lia.
  - pose proof (parsers_consume f) as (CV & _ & _).
    pose proof (parsers_consume (S f)) as (CV' & _ & _).
    repeat split.
    + intros s Hs.
      change (valueBody (parseMembers (S f)) (parseElements (S f)) s
              = valueBody (parseMembers f) (parseElements f) s).
      apply valueBody_ext; intros; [apply IM|apply IE]; lia.
    + intros s acc Hs.
      change (elementsBody (parseValue (S f)) (parseElements (S f)) s acc
              = elementsBody (parseValue f) (parseElements f) s acc).
      apply elementsBody_ext; [apply CV'|apply IV; lia|intros; apply IE; lia].
    + intros s acc Hs.
      change (membersBody (parseValue (S f)) (parseMembers (S f)) s acc
              = membersBody (parseValue f) (parseMembers f) s acc).
      apply membersBody_ext;
        [apply CV'|intros; apply IV; lia|intros; apply IM; lia].
Qed.

(** The fuel of [parse] is enough: no result of [parseValue] on a text
    depends on fuel beyond it. *)
Lemma parseValue_fuel text fuel :
  2 * List.length text + 1 <= fuel ->
  parseValue fuel text = parseValue (2 * List.length text + 1) text.
Proof.
  intros H. induction H as [|f Hle IH]; [reflexivity|].
  rewrite <- IH. now apply (proj1 (fuel_step f)).
Qed.

End JsonFacts.


(** ** The decoder and the Line Buffer *)

Module LineBufferFacts.
Import Spec SplitFacts.

Lemma decode_app d (a b : list byte) :
  Utf8.decode d (a ++ b) =
  let (d1, out1) := Utf8.decode d a in
  let (d2, out2) := Utf8.decode d1 b in
  (d2, out1 ++ out2).
Proof.
  revert d. induction a as [|x a IH]; intros d; simpl.
  - destruct (Utf8.decode d b); reflexivity.
  - destruct (Utf8.step d x) as [d1 o1]. rewrite IH.
    destruct (Utf8.decode d1 a) as [d2 o2].
    destruct (Utf8.decode d2 b) as [d3 o3].
    now rewrite app_assoc.
Qed.

(** What the turns of the loop emit and retain is the one-shot split of
    the retained text followed by the decoded text of all the chunks. *)
Lemma pushAll_split lb (chunks : list (list byte)) :
  isLine (LineBuffer.buffer lb) ->
  let (d, text) := Utf8.decode (LineBuffer.decoder lb) (List.concat chunks) in
  LineBuffer.pushAll lb chunks =
  (removelast (split (LineBuffer.buffer lb ++ text)),
   {| LineBuffer.decoder := d;
      LineBuffer.buffer := last (split (LineBuffer.buffer lb ++ text)) [] |}).
Proof.
  revert lb. induction chunks as [|value rest IH]; intros [d0 buf] Hbuf; simpl in *.
  - rewrite app_nil_r, split_isLine by assumption. reflexivity.
  - rewrite decode_app. unfold LineBuffer.push. simpl.
    destruct (Utf8.decode d0 value) as [d1 t1].
    specialize (IH {| LineBuffer.decoder := d1;
                      LineBuffer.buffer := last (split (buf ++ t1)) [] |}
                   (last_split_isLine _)).
    simpl in IH.
    destruct (Utf8.decode d1 (List.concat rest)) as [d2 t2].
    rewrite IH. rewrite app_assoc, (split_app (buf ++ t1) t2).
    rewrite removelast_app by apply split_not_nil.
    rewrite last_app_not_nil by apply split_not_nil.
    reflexivity.
Qed.

Lemma pushAll_empty (chunks : list (list byte)) :
  LineBuffer.pushAll LineBuffer.empty chunks =
  (removelast (split (streamText (List.concat chunks))),
   {| LineBuffer.decoder := fst (Utf8.decode Utf8.fresh (List.concat chunks));
      LineBuffer.buffer := last (split (streamText (List.concat chunks))) [] |}).
Proof.
  pose proof (pushAll_split LineBuffer.empty chunks) as H.
  unfold streamText. simpl in H.
  destruct (Utf8.decode Utf8.fresh (List.concat chunks)) as [d t].
  apply H. intros [].
Qed.

End LineBufferFacts.

(** ** Computations *)

Module MonadFacts.
Import App Spec.

Lemma bind_assoc {A B C} (c : M A) (k : A -> M B) (k' : B -> M C) w :
  bind (bind c k) k' w = bind c (fun a => bind (k a) k') w.
Proof.
  unfold bind. destruct (c w) as [[a|e] w1]; reflexivity.
Qed.

Lemma bind_ext {A B} (c : M A) (k k' : A -> M B) w :
  (forall a w1, k a w1 = k' a w1) -> bind c k w = bind c k' w.
Proof.
  intros H. unfold bind. destruct (c w) as [[a|e] w1]; [apply H|reflexivity].
Qed.

Lemma forEach_app {A} (f : A -> M unit) (l1 l2 : list A) w :
  forEach f (l1 ++ l2) w = bind (forEach f l1) (fun _ => forEach f l2) w.
Proof.
  revert w. induction l1 as [|x l1 IH]; intros w; [reflexivity|].
  simpl. rewrite bind_assoc. apply bind_ext. intros _ w1. apply IH.
Qed.

Section Invariants.
Variable I : World -> Prop.

Lemma preserves_ret {A} (a : A) : preserves I (ret a).
Proof. intros w H. exact H. Qed.

Lemma preserves_throw {A} e : preserves I (@throw A e).
Proof. intros w H. exact H. Qed.

Lemma preserves_bind {A B} (c : M A) (k : A -> M B) :
  preserves I c -> (forall a, preserves I (k a)) -> preserves I (bind c k).
Proof.
  intros Hc Hk w H. unfold bind. specialize (Hc w H).
  destruct (c w) as [[a|e] w1]; simpl in *; [now apply Hk|exact Hc].
Qed.

Lemma preserves_tryCatch {A} (c : M A) (h : jsstring -> M A) :
  preserves I c -> (forall e, preserves I (h e)) -> preserves I (tryCatch c h).
Proof.
  intros Hc Hh w H. unfold tryCatch. specialize (Hc w H).
  destruct (c w) as [[a|e] w1]; simpl in *; [exact Hc|now apply Hh].
Qed.

Lemma preserves_tryFinally {A} (c : M A) (f : M unit) :
  preserves I c -> preserves I f -> preserves I (tryFinally c f).
Proof.
  intros Hc Hf w H. unfold tryFinally. specialize (Hc w H).
  destruct (c w) as [r w1]; simpl in *. specialize (Hf w1 Hc).
  destruct (f w1) as [[[]|e] w2]; exact Hf.
Qed.

Lemma preserves_forEach {A} (f : A -> M unit) (l : list A) :
  (forall x, preserves I (f x)) -> preserves I (forEach f l).
Proof.
  intros Hf. induction l as [|x l IH]; simpl.
  - apply preserves_ret.
  - apply preserves_bind; [apply Hf|intros _; exact IH].
Qed.

Lemma pure_preserves {A} (c : M A) : pure c -> preserves I c.
Proof. intros Hc w H. now rewrite Hc. Qed.

End Invariants.

Lemma pure_ret {A} (a : A) : pure (ret a).
Proof. intros w. reflexivity. Qed.

Lemma pure_throw {A} e : pure (@throw A e).
Proof. intros w. reflexivity. Qed.

Lemma pure_bind {A B} (c : M A) (k : A -> M B) :
  pure c -> (forall a, pure (k a)) -> pure (bind c k).
Proof.
  intros Hc Hk w. unfold bind. specialize (Hc w).
  destruct (c w) as [[a|e] w1]; simpl in *; subst; [apply Hk|reflexivity].
Qed.

Lemma pure_tryCatch {A} (c : M A) (h : jsstring -> M A) :
  pure c -> (forall e, pure (h e)) -> pure (tryCatch c h).
Proof.
  intros Hc Hh w. unfold tryCatch. specialize (Hc w).
  destruct (c w) as [[a|e] w1]; simpl in *; subst; [reflexivity|apply Hh].
Qed.

Create HintDb engine.

#[export] Hint Resolve preserves_ret preserves_throw preserves_bind
  preserves_tryCatch preserves_tryFinally preserves_forEach : engine.
#[export] Hint Resolve pure_ret pure_throw pure_bind pure_tryCatch : engine.

Section WithPlatform.
Context {platform : Platform}.

Lemma pure_jsonParse s : pure (jsonParse s).
Proof. unfold jsonParse. destruct (Json.parse s); auto with engine. Qed.

Lemma pure_getField x name : pure (getField x name).
Proof. destruct x; simpl; auto with engine. Qed.

Lemma pure_responseText r : pure (responseText r).
Proof.
  unfold responseText. destruct (body r) as [b|]; [|auto with engine].
  destruct (failure b); auto with engine.
Qed.

Lemma pure_interpolate v : pure (interpolate v).
Proof. unfold interpolate. destruct (Coercion.toString v); auto with engine. Qed.

Lemma pure_normalize message : pure (normalize message).
Proof.
  unfold normalize. destruct (Regex.matchBraces message) as [m|]; [|auto with engine].
  apply pure_tryCatch; [|auto with engine].
  apply pure_bind; [apply pure_jsonParse|intros errorJson].
  apply pure_bind; [apply pure_getField|intros [v|]]; [|auto with engine].
  destruct (Coercion.truthy v); [|auto with engine].
  apply pure_bind; [apply pure_interpolate|auto with engine].
Qed.

Lemma pure_checkStatus r : pure (checkStatus r).
Proof.
  unfold checkStatus. destruct (ok r); [auto with engine|].
  apply pure_bind; [apply pure_responseText|auto with engine].
Qed.

End WithPlatform.

#[export] Hint Resolve pure_jsonParse pure_getField pure_responseText
  pure_interpolate pure_normalize pure_checkStatus pure_preserves : engine.

End MonadFacts.

(** ** The engine, piece by piece *)

Module EngineFacts.
Import App Spec Coercion MonadFacts SplitFacts LineBufferFacts.

Lemma lastMessage_snoc (base : list Message) (m : Message) :
  lastMessage (base ++ [m]) = Some m.
Proof.
  unfold lastMessage. rewrite length_app. simpl.
  replace (List.length base + 1 - 1) with (List.length base) by lia.
  rewrite nth_error_app2 by lia. now rewrite Nat.sub_diag.
Qed.

Lemma allButLast_snoc (base : list Message) (m : Message) :
  allButLast (base ++ [m]) = base.
Proof. apply removelast_last. Qed.

Lemma withLog_same (w : World) : withLog (messages (app w)) w = w.
Proof. destruct w as [[] ? ?]. reflexivity. Qed.

Lemma withText_same (m : Message) : withText (text m) m = m.
Proof. destruct m. reflexivity. Qed.

Lemma parse_empty : Json.parse [] = None.
Proof. reflexivity. Qed.

Section WithPlatform.
Context {platform : Platform}.

(** *** The updaters on a log that is not empty *)

Lemma setText_snoc v base m :
  setText v (base ++ [m]) = Some (base ++ [withText v m]).
Proof.
  unfold setText. now rewrite lastMessage_snoc, allButLast_snoc.
Qed.

Lemma sealError_snoc e base m :
  sealError e (base ++ [m]) = Some (base ++ [sealed e m]).
Proof.
  unfold sealError. now rewrite lastMessage_snoc, allButLast_snoc.
Qed.

Lemma appendText_snoc v base m :
  appendText v (base ++ [m]) =
  option_map (fun t => base ++ [withText t m]) (plus (text m) v).
Proof.
  unfold appendText. rewrite lastMessage_snoc, allButLast_snoc.
  destruct (plus (text m) v); reflexivity.
Qed.

Lemma plus_strings (a b : jsstring) :
  plus (JString a) (JString b) = Some (JString (a ++ b)).
Proof. reflexivity. Qed.

(** *** One line of the stream *)

Lemma processLine_carries line t base m s w :
  carries line t ->
  messages (app w) = base ++ [m] -> text m = JString s ->
  processLine line w =
  (Normal tt, withLog (base ++ [withText (JString (s ++ t)) m]) w).
Proof.
  intros [_ (payload & members & Hp & Hparse & Hget)] Hlog Htext.
  unfold processLine. rewrite Hp.
  destruct payload as [|c payload]; [rewrite parse_empty in Hparse; discriminate|].
  simpl nonEmpty. cbv iota.
  unfold tryCatch, bind, jsonParse. rewrite Hparse. simpl. rewrite Hget.
  destruct t as [|c' t]; simpl.
  - rewrite app_nil_r, <- Htext, withText_same, <- Hlog, withLog_same. reflexivity.
  - unfold setMessages. rewrite Hlog, appendText_snoc, Htext, plus_strings.
    reflexivity.
Qed.

Lemma processLine_malformed line w :
  malformed line -> processLine line w = (Normal tt, w).
Proof.
  intros [_ (payload & Hp & Hparse)]. unfold processLine. rewrite Hp.
  destruct (nonEmpty payload); [|reflexivity].
  unfold tryCatch, bind, jsonParse. rewrite Hparse. reflexivity.
Qed.

Lemma processLine_frame f base m s w :
  frameOk f ->
  messages (app w) = base ++ [m] -> text m = JString s ->
  processLine (frameLine f) w =
  (Normal tt, withLog (base ++ [withText (JString (s ++ frameText f)) m]) w).
Proof.
  intros Hf Hlog Htext. destruct f as [line t|line]; simpl in *.
  - now apply processLine_carries.
  - rewrite processLine_malformed by assumption.
    rewrite app_nil_r, <- Htext, withText_same, <- Hlog, withLog_same. reflexivity.
Qed.

Lemma forEach_frames frames : forall base m s w,
  Forall frameOk frames ->
  messages (app w) = base ++ [m] -> text m = JString s ->
  forEach processLine (map frameLine frames) w =
  (Normal tt,
   withLog (base ++ [withText (JString (s ++ List.concat (map frameText frames))) m]) w).
Proof.
  induction frames as [|f frames IH]; intros base m s w Hall Hlog Htext.
  - simpl. rewrite app_nil_r, <- Htext, withText_same, <- Hlog, withLog_same.
    reflexivity.
  - inversion Hall as [|? ? Hf Hrest]; subst. simpl. unfold bind.
    rewrite (processLine_frame f base m s w Hf Hlog Htext).
    rewrite (IH base (withText (JString (s ++ frameText f)) m) (s ++ frameText f));
      [|assumption|reflexivity|reflexivity].
    now rewrite app_assoc.
Qed.

(** *** The read loop is the loop over the lines of the Line Buffer *)

Lemma readLoop_forEach chunks : forall lb failure w,
  readLoop lb chunks failure w =
  bind (forEach processLine (fst (LineBuffer.pushAll lb chunks)))
       (fun _ => match failure with
                 | Some e => throw e
                 | None => ret tt
                 end) w.
Proof.
  induction chunks as [|value rest IH]; intros lb failure w; [reflexivity|].
  simpl. destruct (LineBuffer.push lb value) as [lines lb1].
  specialize (IH lb1 failure).
  destruct (LineBuffer.pushAll lb1 rest) as [more lb2]. simpl in *.
  rewrite (bind_ext _ _ _ w (fun _ w1 => IH w1)).
  rewrite <- bind_assoc. unfold bind at 1 3.
  rewrite forEach_app. reflexivity.
Qed.

Lemma frames_lines frames :
  Forall frameOk frames -> Forall isLine (map frameLine frames).
Proof.
  induction 1 as [|f frames Hf _ IH]; simpl; constructor; [|exact IH].
  destruct f; simpl in *; apply Hf.
Qed.

Lemma eventStreamPath_frames r chunks frames base m s w :
  body r = Some {| App.chunks := chunks; failure := None |} ->
  streamText (List.concat chunks) = terminated (map frameLine frames) ->
  Forall frameOk frames ->
  messages (app w) = base ++ [m] -> text m = JString s ->
  eventStreamPath r w =
  (Normal tt,
   withLog (base ++ [withText (JString (s ++ List.concat (map frameText frames))) m]) w).
Proof.
  intros Hbody Hstream Hall Hlog Htext.
  unfold eventStreamPath. rewrite Hbody. simpl.
  rewrite readLoop_forEach, pushAll_empty. simpl fst. rewrite Hstream.
  rewrite <- (app_nil_r (terminated _)), split_terminated by now apply frames_lines.
  simpl split. rewrite removelast_last.
  unfold bind. now rewrite (forEach_frames frames base m s w Hall Hlog Htext).
Qed.

(** *** A send that goes out *)

Lemma handleSendMessage_dispatched net w :
  dispatches (app w) = true ->
  handleSendMessage net (app w) w =
  tryFinally (tryCatch (exchange net (app w)) handleError) (setIsLoading false)
    (prepared w).
Proof.
  unfold dispatches, handleSendMessage. intros H.
  apply andb_prop in H. destruct H as [H H4].
  apply andb_prop in H. destruct H as [H H3].
  apply andb_prop in H. destruct H as [H1 H2].
  rewrite H1, H3, H4. apply negb_true_iff in H2. rewrite H2. reflexivity.
Qed.

Lemma submit_dispatched net w :
  dispatches (app w) = true ->
  submit net w =
  snd (tryFinally (tryCatch (exchange net (app w)) handleError)
         (setIsLoading false) (prepared w)).
Proof.
  intros H. unfold submit. now rewrite handleSendMessage_dispatched.
Qed.

(** The world when the response of a send is handled. *)
Lemma exchange_ok net props r w :
  net (requestFor props) = Responds r -> ok r = true ->
  exchange net props w =
  handleResponse r
    (snd (trackCorrelation props r (snd (fetch net (requestFor props) w)))).
Proof.
  intros Hnet Hok. unfold exchange, bind, fetch, checkStatus.
  rewrite Hnet, Hok. simpl. unfold trackCorrelation.
  destruct (headersGet r CHAT_ID_HEADER) as [c|]; [|reflexivity].
  destruct (nonEmpty c && negb (holdsChatId (chatId props))); reflexivity.
Qed.

Lemma trackCorrelation_messages props r w :
  messages (app (snd (trackCorrelation props r w))) = messages (app w).
Proof.
  unfold trackCorrelation.
  destruct (headersGet r CHAT_ID_HEADER) as [c|]; [|reflexivity].
  destruct (nonEmpty c && negb (holdsChatId (chatId props))); reflexivity.
Qed.

(** The message thrown on a response that is not ok. *)
Lemma exchange_not_ok net props r w bytes :
  net (requestFor props) = Responds r -> ok r = false ->
  bodyBytes r = Some bytes ->
  exchange net props w =
  (Throw (notOkMessage r (Utf8.decodeAll bytes)),
   snd (fetch net (requestFor props) w)).
Proof.
  intros Hnet Hok Hbytes. unfold exchange, bind, fetch, checkStatus.
  rewrite Hnet, Hok. unfold bodyBytes in Hbytes. unfold bind, responseText.
  destruct (body r) as [b|].
  - destruct (failure b); [discriminate|]. injection Hbytes as <-. reflexivity.
  - injection Hbytes as <-. reflexivity.
Qed.

End WithPlatform.
End EngineFacts.

(** ** Invariants of a send *)

Module InvariantFacts.
Import App Spec Coercion MonadFacts EngineFacts.

Section Stable.
Context {platform : Platform}.
Variable I : World -> Prop.
Hypothesis I_append : forall v, preserves I (setMessages (appendText v)).
Hypothesis I_set : forall v, preserves I (setMessages (setText v)).
Hypothesis I_seal : forall e, preserves I (setMessages (sealError e)).
Hypothesis I_error : forall e, preserves I (setError e).

Lemma stable_processLine line : preserves I (processLine line).
Proof.
  unfold processLine. destruct (dataPayload line) as [p|]; [|auto with engine].
  destruct (nonEmpty p); [|auto with engine].
  apply preserves_tryCatch; [|auto with engine].
  apply preserves_bind; [auto with engine|intros data].
  apply preserves_bind; [auto with engine|intros [v|]]; [|auto with engine].
  destruct (truthy v); auto with engine.
Qed.

Lemma stable_readLoop chunks : forall lb failure,
  preserves I (readLoop lb chunks failure).
Proof.
  induction chunks as [|value rest IH]; intros lb failure; simpl.
  - destruct failure; auto with engine.
  - destruct (LineBuffer.push lb value) as [lines lb1].
    apply preserves_bind; [|intros _; apply IH].
    apply preserves_forEach. apply stable_processLine.
Qed.

Lemma stable_handleResponse r : preserves I (handleResponse r).
Proof.
  unfold handleResponse.
  destruct (classify (headersGet r (str "content-type"))).
  - unfold singleObjectPath, responseJson.
    apply preserves_bind; [auto 6 with engine|intros data].
    apply preserves_bind; [auto with engine|intros [v|]]; [|auto with engine].
    destruct (truthy v); auto with engine.
  - unfold eventStreamPath. destruct (body r) as [b|]; [|auto with engine].
    apply stable_readLoop.
Qed.

Lemma stable_handleError e : preserves I (handleError e).
Proof.
  unfold handleError.
  apply preserves_bind; [auto with engine|intros u].
  apply preserves_bind; [apply I_error|intros _; apply I_seal].
Qed.

Variable net : Network.
Variable props : AppState.
Hypothesis I_fetch : forall req, preserves I (fetch net req).
Hypothesis I_track : forall r, preserves I (trackCorrelation props r).
Hypothesis I_loading : forall b, preserves I (setIsLoading b).

Lemma stable_exchange : preserves I (exchange net props).
Proof.
  unfold exchange.
  apply preserves_bind; [apply I_fetch|intros r].
  apply preserves_bind; [auto with engine|intros _].
  apply preserves_bind; [apply I_track|intros _].
  apply stable_handleResponse.
Qed.

Lemma stable_attempt :
  preserves I (tryFinally (tryCatch (exchange net props) handleError)
                 (setIsLoading false)).
Proof.
  apply preserves_tryFinally; [|apply I_loading].
  apply preserves_tryCatch; [apply stable_exchange|apply stable_handleError].
Qed.

End Stable.

Section WithPlatform.
Context {platform : Platform}.

(** *** The frame of the log *)

Lemma logFrame_onApp base s f :
  (forall st, messages (f st) = messages st) -> preserves (logFrame base s) (onApp f).
Proof.
  intros Hf w [m [Hm Hs]]. exists m. simpl. rewrite Hf. now split.
Qed.

Lemma logFrame_append base s v :
  preserves (logFrame base s) (setMessages (appendText v)).
Proof.
  intros w [m [Hm Hs]]. unfold setMessages. rewrite Hm, appendText_snoc.
  destruct (plus (text m) v) as [t|]; simpl.
  - exists (withText t m). now split.
  - exists m. now split.
Qed.

Lemma logFrame_set base s v :
  preserves (logFrame base s) (setMessages (setText v)).
Proof.
  intros w [m [Hm Hs]]. unfold setMessages. rewrite Hm, setText_snoc. simpl.
  exists (withText v m). now split.
Qed.

Lemma logFrame_seal base s e :
  preserves (logFrame base s) (setMessages (sealError e)).
Proof.
  intros w [m [Hm Hs]]. unfold setMessages. rewrite Hm, sealError_snoc. simpl.
  exists (sealed e m). now split.
Qed.

Lemma logFrame_fetch base s net req : preserves (logFrame base s) (fetch net req).
Proof.
  intros w H. unfold fetch. destruct (net req); exact H.
Qed.

Lemma logFrame_track base s props r :
  preserves (logFrame base s) (trackCorrelation props r).
Proof.
  unfold trackCorrelation.
  destruct (headersGet r CHAT_ID_HEADER) as [c|]; [|auto with engine].
  destruct (nonEmpty c && negb (holdsChatId (chatId props))); [|auto with engine].
  now apply logFrame_onApp.
Qed.

Lemma logFrame_attempt base s net props :
  preserves (logFrame base s)
    (tryFinally (tryCatch (exchange net props) handleError) (setIsLoading false)).
Proof.
  apply stable_attempt.
  - apply logFrame_append.
  - apply logFrame_set.
  - apply logFrame_seal.
  - intros e. now apply logFrame_onApp.
  - apply logFrame_fetch.
  - apply logFrame_track.
  - intros b. now apply logFrame_onApp.
Qed.

(** *** The correlation identifier *)

Lemma holds_setMessages c u : preserves (holds c) (setMessages u).
Proof.
  intros w H. unfold setMessages. destruct (u (messages (app w))); exact H.
Qed.

Lemma holds_onApp c f :
  (forall st, chatId (f st) = chatId st) -> preserves (holds c) (onApp f).
Proof.
  intros Hf w H. unfold holds in *. simpl. now rewrite Hf.
Qed.

Lemma holds_fetch c net req : preserves (holds c) (fetch net req).
Proof.
  intros w H. unfold fetch. destruct (net req); exact H.
Qed.

Lemma holds_handleResponse c r : preserves (holds c) (handleResponse r).
Proof.
  apply stable_handleResponse; intros; apply holds_setMessages.
Qed.

Lemma holds_handleError c e : preserves (holds c) (handleError e).
Proof.
  apply stable_handleError; intros; [apply holds_setMessages|now apply holds_onApp].
Qed.

Lemma holds_track_held c props r :
  holdsChatId (chatId props) = true ->
  preserves (holds c) (trackCorrelation props r).
Proof.
  intros Hheld. unfold trackCorrelation. rewrite Hheld.
  destruct (headersGet r CHAT_ID_HEADER) as [x|]; [|auto with engine].
  rewrite andb_false_r. auto with engine.
Qed.

Lemma holds_handleSendMessage_held c net props :
  holdsChatId (chatId props) = true ->
  preserves (holds c) (handleSendMessage net props).
Proof.
  intros Hheld. unfold handleSendMessage.
  destruct (negb (nonEmpty (trim (input props))) || isLoading props);
    [auto with engine|].
  destruct (negb (nonEmpty (trim (n8nWebhookUrl props)))
            || negb (startsWith (n8nWebhookUrl props) (str "http")));
    [now apply holds_onApp|].
  repeat (apply preserves_bind;
          [first [apply holds_setMessages | now apply holds_onApp]|intros _]).
  apply stable_attempt; intros;
    first [apply holds_setMessages | now apply holds_onApp
          | apply holds_fetch | now apply holds_track_held].
Qed.

(** *** The requests *)

Lemma sentIs_setMessages l u : preserves (sentIs l) (setMessages u).
Proof.
  intros w H. unfold setMessages. destruct (u (messages (app w))); exact H.
Qed.

Lemma sentIs_onApp l f : preserves (sentIs l) (onApp f).
Proof. intros w H. exact H. Qed.

Lemma sentIs_handleResponse l r : preserves (sentIs l) (handleResponse r).
Proof.
  apply stable_handleResponse; intros; apply sentIs_setMessages.
Qed.

Lemma sentIs_handleError l e : preserves (sentIs l) (handleError e).
Proof.
  apply stable_handleError; intros; [apply sentIs_setMessages|apply sentIs_onApp].
Qed.

Lemma sentIs_track l props r : preserves (sentIs l) (trackCorrelation props r).
Proof.
  unfold trackCorrelation.
  destruct (headersGet r CHAT_ID_HEADER) as [c|]; [|auto with engine].
  destruct (nonEmpty c && negb (holdsChatId (chatId props))); [|auto with engine].
  apply sentIs_onApp.
Qed.

Lemma sentIs_afterFetch l props r :
  preserves (sentIs l)
    (bind (checkStatus r)
       (fun _ => bind (trackCorrelation props r) (fun _ => handleResponse r))).
Proof.
  apply preserves_bind; [auto with engine|intros _].
  apply preserves_bind; [apply sentIs_track|intros _].
  apply sentIs_handleResponse.
Qed.

(** A send that goes out makes one request, the one of line 69. *)
Lemma submit_sent net w :
  dispatches (app w) = true ->
  sent (submit net w) = sent w ++ [requestFor (app w)].
Proof.
  intros Hd. rewrite submit_dispatched by assumption.
  unfold tryFinally, tryCatch, exchange. unfold bind at 1. unfold fetch.
  destruct (net (requestFor (app w))) as [e|r].
  - match goal with
    | |- context [handleError ?e ?w1] =>
        pose proof (sentIs_handleError (sent w ++ [requestFor (app w)]) e w1 eq_refl) as H;
        destruct (handleError e w1) as [c w2]
    end.
    exact H.
  - match goal with
    | |- context [bind (checkStatus r) ?k ?w1] =>
        pose proof (sentIs_afterFetch (sent w ++ [requestFor (app w)]) (app w) r w1 eq_refl) as H;
        destruct (bind (checkStatus r) k w1) as [[[]|e] w2]
    end.
    + exact H.
    + pose proof (sentIs_handleError _ e w2 H) as H2.
      destruct (handleError e w2) as [c w3]. exact H2.
Qed.

End WithPlatform.
End InvariantFacts.

(** ** Streams of frames *)

Module StreamFacts.
Import App Spec Coercion MonadFacts SplitFacts LineBufferFacts EngineFacts
  InvariantFacts.

Lemma isLine_check (line : jsstring) :
  forallb (fun c => negb (c =? LF)%N) line = true -> isLine line.
Proof.
  unfold isLine. induction line as [|c line IH]; simpl; intros H Hin; [exact Hin|].
  apply andb_prop in H. destruct H as [Hc Hr].
  destruct Hin as [Heq|Hin]; [|now apply IH].
  subst c. rewrite N.eqb_refl in Hc. discriminate.
Qed.

Lemma frameText_validTexts frames :
  List.concat (map frameText frames) = List.concat (validTexts frames).
Proof.
  induction frames as [|[line t|line] frames IH]; simpl; [reflexivity| |exact IH].
  now rewrite IH.
Qed.

Section WithPlatform.
Context {platform : Platform}.

Lemma trackCorrelation_error props r w :
  error (app (snd (trackCorrelation props r w))) = error (app w).
Proof.
  unfold trackCorrelation.
  destruct (headersGet r CHAT_ID_HEADER) as [c|]; [|reflexivity].
  destruct (nonEmpty c && negb (holdsChatId (chatId props))); reflexivity.
Qed.

(** An event stream of frames, valid or malformed, through a whole
    send: the placeholder ends with the fragments of the valid frames,
    in order, and no error is shown. *)
Lemma submit_stream net w r chunks frames :
  dispatches (app w) = true ->
  net (requestFor (app w)) = Responds r ->
  streams r chunks ->
  Forall frameOk frames ->
  streamText (List.concat chunks) = terminated (map frameLine frames) ->
  messages (app (submit net w)) =
    messages (app w)
      ++ [userMessage (input (app w));
          botMessage (List.concat (map frameText frames))]
  /\ error (app (submit net w)) = [].
Proof.
  intros Hd Hnet (Hok & Hkind & Hbody) Hall Hstream.
  rewrite submit_dispatched by assumption.
  unfold tryFinally, tryCatch.
  rewrite (exchange_ok net (app w) r (prepared w) Hnet Hok).
  unfold handleResponse. rewrite Hkind.
  set (W := snd (trackCorrelation (app w) r
                   (snd (fetch net (requestFor (app w)) (prepared w))))).
  assert (Hlog : messages (app W) =
                 (messages (app w) ++ [userMessage (input (app w))])
                   ++ [botMessage []]).
  { unfold W. rewrite trackCorrelation_messages. unfold fetch.
    destruct (net (requestFor (app w))); reflexivity. }
  assert (Herr : error (app W) = []).
  { unfold W. rewrite trackCorrelation_error. unfold fetch.
    destruct (net (requestFor (app w))); reflexivity. }
  rewrite (eventStreamPath_frames r chunks frames _ (botMessage []) [] W
             Hbody Hstream Hall Hlog eq_refl).
  simpl. split; [|exact Herr]. now rewrite <- app_assoc.
Qed.

End WithPlatform.
End StreamFacts.

(** * The claims *)

Module Properties.
Import App Spec Coercion MonadFacts SplitFacts LineBufferFacts EngineFacts
  InvariantFacts StreamFacts.

(** C2. For every byte stream and every two ways of cutting it into
    chunks, the Line Buffer emits the same lines in the same order and
    retains the same buffer; the lines emitted and the buffer retained
    are the segments of the decoded text of the whole stream between
    its line feeds, so that no line break is made up and nothing is
    lost where a chunk ends. *)
Theorem line_buffer_chunk_invariance (chunks1 chunks2 : list (list byte)) :
  List.concat chunks1 = List.concat chunks2 ->
  LineBuffer.pushAll LineBuffer.empty chunks1
    = LineBuffer.pushAll LineBuffer.empty chunks2
  /\ fst (LineBuffer.pushAll LineBuffer.empty chunks1)
       ++ [LineBuffer.buffer (snd (LineBuffer.pushAll LineBuffer.empty chunks1))]
     = split (streamText (List.concat chunks1)).
Proof.
  intros Heq. rewrite !pushAll_empty, Heq. split; [reflexivity|].
  simpl. symmetry. apply app_removelast_last. apply split_not_nil.
Qed.

Lemma line_buffer_chunk_invariance_witness :
  List.concat Sample.helloChunks = List.concat [Sample.helloBytes]
  /\ LineBuffer.pushAll LineBuffer.empty Sample.helloChunks
     = LineBuffer.pushAll LineBuffer.empty [Sample.helloBytes].
Proof.
  split; [vm_compute; reflexivity|].
  apply (line_buffer_chunk_invariance Sample.helloChunks [Sample.helloBytes]).
  vm_compute; reflexivity.
Defined.

Section WithPlatform.
Context {platform : Platform}.

(** C1. For every well-formed event stream of N frames, each a
    newline-terminated [data:] line whose payload decodes to an object
    carrying the text fragment Ti, and for every way of cutting the
    stream into chunks, the send ends with the open bot message holding
    exactly T1 T2 ... TN in order. *)
Theorem stream_text_is_concatenation
    (net : Network) (w : World) (r : Response)
    (chunks : list (list byte)) (frames : list (jsstring * jsstring)) :
  dispatches (app w) = true ->
  net (requestFor (app w)) = Responds r ->
  streams r chunks ->
  Forall (fun f => carries (fst f) (snd f)) frames ->
  streamText (List.concat chunks) = terminated (map fst frames) ->
  messages (app (submit net w)) =
    messages (app w)
      ++ [userMessage (input (app w));
          botMessage (List.concat (map snd frames))].
Proof.
  intros Hd Hnet Hr Hall Hstream.
  pose (fs := map (fun f => Valid (fst f) (snd f)) frames).
  assert (Hlines : map frameLine fs = map fst frames).
  { unfold fs. rewrite map_map. reflexivity. }
  assert (Htexts : map frameText fs = map snd frames).
  { unfold fs. rewrite map_map. reflexivity. }
  assert (Hok : Forall frameOk fs).
  { unfold fs. apply Forall_map. exact Hall. }
  rewrite <- Hlines in Hstream. rewrite <- Htexts.
  exact (proj1 (submit_stream net w r chunks fs Hd Hnet Hr Hok Hstream)).
Qed.

(** C3. For every event stream whose frames are valid ones and frames
    whose payload fails to decode as JSON, the malformed frames are
    skipped and the reassembly goes on: the send ends with the open bot
    message holding the fragments of the valid frames only, in order,
    and with no error shown. *)
Theorem malformed_frames_are_skipped
    (net : Network) (w : World) (r : Response)
    (chunks : list (list byte)) (frames : list Frame) :
  dispatches (app w) = true ->
  net (requestFor (app w)) = Responds r ->
  streams r chunks ->
  Forall frameOk frames ->
  streamText (List.concat chunks) = terminated (map frameLine frames) ->
  messages (app (submit net w)) =
    messages (app w)
      ++ [userMessage (input (app w));
          botMessage (List.concat (validTexts frames))]
  /\ error (app (submit net w)) = [].
Proof.
  intros Hd Hnet Hr Hall Hstream.
  rewrite <- frameText_validTexts.
  now apply (submit_stream net w r chunks frames).
Qed.

End WithPlatform.

Lemma helloLine1_carries : carries Sample.helloLine1 (str "He").
Proof.
  split; [apply isLine_check; vm_compute; reflexivity|].
  eexists. eexists.
  split; [vm_compute; reflexivity|].
  split; vm_compute; reflexivity.
Defined.

Lemma helloLine2_carries : carries Sample.helloLine2 (str "llo").
Proof.
  split; [apply isLine_check; vm_compute; reflexivity|].
  eexists. eexists.
  split; [vm_compute; reflexivity|].
  split; vm_compute; reflexivity.
Defined.

Lemma brokenLine_malformed : malformed Sample.brokenLine.
Proof.
  split; [apply isLine_check; vm_compute; reflexivity|].
  eexists. split; vm_compute; reflexivity.
Defined.

Lemma stream_text_is_concatenation_witness :
  dispatches (app Sample.ready) = true
  /\ messages (app (@submit Sample.v8 (Sample.respond Sample.helloStream) Sample.ready))
     = messages (app Sample.ready)
         ++ [userMessage (str "hello"); botMessage (str "Hello")].
Proof.
  split; [vm_compute; reflexivity|].
  apply (@stream_text_is_concatenation Sample.v8
           (Sample.respond Sample.helloStream) Sample.ready Sample.helloStream
           Sample.helloChunks
           [(Sample.helloLine1, str "He"); (Sample.helloLine2, str "llo")]).
  - vm_compute; reflexivity.
  - reflexivity.
  - repeat split; vm_compute; reflexivity.
  - apply Forall_cons; [apply helloLine1_carries|].
    apply Forall_cons; [apply helloLine2_carries|apply Forall_nil].
  - vm_compute; reflexivity.
Defined.

Lemma malformed_frames_are_skipped_witness :
  messages (app (@submit Sample.v8 (Sample.respond Sample.brokenStream) Sample.ready))
  = messages (app Sample.ready)
      ++ [userMessage (str "hello"); botMessage (str "Hello")]
  /\ error (app (@submit Sample.v8 (Sample.respond Sample.brokenStream) Sample.ready)) = [].
Proof.
  apply (@malformed_frames_are_skipped Sample.v8
           (Sample.respond Sample.brokenStream) Sample.ready Sample.brokenStream
           [firstn 30 Sample.brokenBytes; skipn 30 Sample.brokenBytes]
           [Valid Sample.helloLine1 (str "He"); Malformed Sample.brokenLine;
            Valid Sample.helloLine2 (str "llo")]).
  - vm_compute; reflexivity.
  - reflexivity.
  - repeat split; vm_compute; reflexivity.
  - apply Forall_cons; [apply helloLine1_carries|].
    apply Forall_cons; [apply brokenLine_malformed|].
    apply Forall_cons; [apply helloLine2_carries|apply Forall_nil].
  - vm_compute; reflexivity.
Defined.

Section WithPlatform.
Context {platform : Platform}.

(** C8. On every exit path of a send that went out the loading flag is
    cleared when the send returns; the [finally] block clears it after
    any [try] block and any [catch] block, also one that throws. *)
Theorem loading_flag_cleared (net : Network) (w : World) :
  dispatches (app w) = true ->
  isLoading (app (submit net w)) = false
  /\ forall (body : M unit) (handler : jsstring -> M unit) (w' : World),
       isLoading
         (app (snd (tryFinally (tryCatch body handler) (setIsLoading false) w')))
       = false.
Proof.
  intros Hd. split.
  - rewrite submit_dispatched by assumption. unfold tryFinally.
    destruct (tryCatch (exchange net (app w)) handleError (prepared w)).
    reflexivity.
  - intros body handler w'. unfold tryFinally.
    destruct (tryCatch body handler w'). reflexivity.
Qed.

(** C9. Each of the three updaters used while a response is handled
    (the text set of the single object, the append of a streamed
    fragment, the sealing with an error) replaces the last message of
    the log and nothing else; and a send that went out ends with the
    log it found, followed by the message of the user and by one bot
    message. *)
Theorem only_last_message_replaced (net : Network) (w : World) :
  (forall base m v, setText v (base ++ [m]) = Some (base ++ [withText v m]))
  /\ (forall base m v,
        appendText v (base ++ [m])
        = option_map (fun t => base ++ [withText t m]) (plus (text m) v))
  /\ (forall base m e, sealError e (base ++ [m]) = Some (base ++ [sealed e m]))
  /\ (dispatches (app w) = true ->
      exists m,
        messages (app (submit net w))
        = messages (app w) ++ [userMessage (input (app w)); m]
        /\ sender m = Some Bot).
Proof.
  split; [intros; apply setText_snoc|].
  split; [intros; apply appendText_snoc|].
  split; [intros; apply sealError_snoc|].
  intros Hd. rewrite submit_dispatched by assumption.
  destruct (logFrame_attempt (messages (app w) ++ [userMessage (input (app w))])
              (Some Bot) net (app w) (prepared w)) as [m [Hm Hs]].
  - exists (botMessage []). split; reflexivity.
  - exists m. split; [|exact Hs]. rewrite Hm, <- app_assoc. reflexivity.
Qed.

Lemma exchange_not_ok_throws net props r w :
  net (requestFor props) = Responds r -> ok r = false ->
  exists e, exchange net props w = (Throw e, snd (fetch net (requestFor props) w)).
Proof.
  intros Hnet Hok. unfold exchange, bind, fetch, checkStatus.
  rewrite Hnet, Hok. unfold bind, responseText.
  destruct (body r) as [b|]; [destruct (failure b)|]; eexists; reflexivity.
Qed.

Lemma headerValue_not_held c :
  holdsChatId c = false ->
  headerValue (requestHeadersFor c) CHAT_ID_HEADER = None.
Proof.
  destruct c as [[|x c]|]; simpl; intros H; try discriminate; reflexivity.
Qed.

(** C10. A correlation identifier carried by a response that is not ok
    is not stored: a send whose response fails leaves the session
    without an identifier, and the request of the next send carries no
    correlation header. *)
Theorem failed_response_stores_no_correlation
    (net : Network) (w : World) (r : Response) :
  dispatches (app w) = true ->
  holdsChatId (chatId (app w)) = false ->
  net (requestFor (app w)) = Responds r ->
  ok r = false ->
  chatId (app (submit net w)) = chatId (app w)
  /\ forall (s : jsstring) (net' : Network),
       dispatches (app (typeInput s (submit net w))) = true ->
       exists req,
         sent (submit net' (typeInput s (submit net w)))
         = sent (submit net w) ++ [req]
         /\ headerValue (requestHeaders req) CHAT_ID_HEADER = None.
Proof.
  intros Hd Hfree Hnet Hok.
  assert (Hkeep : chatId (app (submit net w)) = chatId (app w)).
  { rewrite submit_dispatched by assumption. unfold tryFinally, tryCatch.
    destruct (exchange_not_ok_throws net (app w) r (prepared w) Hnet Hok)
      as [e ->].
    match goal with
    | |- context [handleError e ?w1] =>
        pose proof (holds_handleError (chatId (app w)) e w1) as H;
        destruct (handleError e w1) as [c w2]
    end.
    apply H. unfold holds, fetch. destruct (net (requestFor (app w))); reflexivity. }
  split; [exact Hkeep|].
  intros s net' Hd'.
  exists (requestFor (app (typeInput s (submit net w)))).
  split; [rewrite submit_sent by assumption; reflexivity|].
  simpl requestHeaders. apply headerValue_not_held.
  change (chatId (app (typeInput s (submit net w))))
    with (chatId (app (submit net w))).
  now rewrite Hkeep.
Qed.

Lemma session_holds c turns : forall w,
  holdsChatId c = true -> chatId (app w) = c ->
  chatId (app (session turns w)) = c.
Proof.
  induction turns as [|[s net] turns IH]; intros w Hheld Hc; [exact Hc|].
  simpl. apply IH; [exact Hheld|].
  unfold submit.
  apply (holds_handleSendMessage_held c net (app (typeInput s w))).
  - change (chatId (app (typeInput s w))) with (chatId (app w)).
    now rewrite Hc.
  - exact Hc.
Qed.


(** C5, as the code has it. A send with an empty or whitespace-only
    input does nothing at all: no request, no change of the log, no
    banner. A send with a text, while none is pending, and with a URL
    that is blank or does not start with [http] makes no request,
    leaves the log as it is and shows the configuration banner. *)
Theorem rejected_send (net : Network) (w : World) :
  (nonEmpty (trim (input (app w))) = false -> submit net w = w)
  /\ (nonEmpty (trim (input (app w))) = true ->
      isLoading (app w) = false ->
      nonEmpty (trim (n8nWebhookUrl (app w))) = false
      \/ startsWith (n8nWebhookUrl (app w)) (str "http") = false ->
      sent (submit net w) = sent w
      /\ messages (app (submit net w)) = messages (app w)
      /\ error (app (submit net w)) = configurationError).
Proof.
  unfold submit, handleSendMessage. split.
  - intros H. rewrite H. reflexivity.
  - intros H Hl Hurl. rewrite H, Hl. cbn [negb orb].
    assert (Hbad : negb (nonEmpty (trim (n8nWebhookUrl (app w))))
                   || negb (startsWith (n8nWebhookUrl (app w)) (str "http")) = true).
    { destruct Hurl as [-> | ->]; [reflexivity|apply orb_true_r]. }
    rewrite Hbad. repeat split.
Qed.

(** The single object path on a body that decodes to an object with a
    string for its [text] member. *)
Lemma handleResponse_single r w base m bytes members v :
  classify (headersGet r (str "content-type")) = SingleObject ->
  bodyBytes r = Some bytes ->
  Json.parse (Utf8.decodeAll bytes) = Some (JObject members) ->
  getMember members (str "text") = Some v ->
  messages (app w) = base ++ [m] ->
  truthy v = true \/ (v = JString [] /\ text m = JString []) ->
  handleResponse r w
  = (Normal tt, withLog (base ++ [withText v m]) w).
Proof.
  intros Hk Hbytes Hparse Hget Hlog Hv.
  unfold handleResponse. rewrite Hk.
  unfold singleObjectPath, responseJson, bind, responseText.
  assert (Htext : match body r with
                  | Some b =>
                      match failure b with
                      | Some e => throw e
                      | None => ret (Utf8.decodeAll (List.concat (chunks b)))
                      end
                  | None => ret []
                  end w = (Normal (Utf8.decodeAll bytes), w)).
  { unfold bodyBytes in Hbytes. destruct (body r) as [b|].
    - destruct (failure b); [discriminate|]. injection Hbytes as <-. reflexivity.
    - injection Hbytes as <-. reflexivity. }
  rewrite Htext. unfold jsonParse. rewrite Hparse. simpl. rewrite Hget.
  destruct Hv as [Hv|[-> Hm]].
  - rewrite Hv. unfold setMessages. rewrite Hlog, setText_snoc. reflexivity.
  - simpl. rewrite <- Hm, withText_same, <- Hlog, withLog_same. reflexivity.
Qed.

(** C6. The response is classified by one test: it takes the single
    object path if and only if its declared content type includes
    [application/json], and the event stream path for any other
    content type and for none. On the single object path the body is
    decoded as a whole and the text member it carries becomes the text
    of the open message, whatever that message held before: a send
    answered so ends with the bot message holding exactly that text. *)
Theorem response_classification :
  (forall ct,
     classify ct = SingleObject
     <-> exists s, ct = Some s /\ includes s (str "application/json") = true)
  /\ (forall r w base m bytes members v,
        classify (headersGet r (str "content-type")) = SingleObject ->
        bodyBytes r = Some bytes ->
        Json.parse (Utf8.decodeAll bytes) = Some (JObject members) ->
        getMember members (str "text") = Some v ->
        messages (app w) = base ++ [m] ->
        truthy v = true \/ (v = JString [] /\ text m = JString []) ->
        handleResponse r w
        = (Normal tt, withLog (base ++ [withText v m]) w))
  /\ (forall net w r bytes members t,
        dispatches (app w) = true ->
        net (requestFor (app w)) = Responds r ->
        ok r = true ->
        classify (headersGet r (str "content-type")) = SingleObject ->
        bodyBytes r = Some bytes ->
        Json.parse (Utf8.decodeAll bytes) = Some (JObject members) ->
        getMember members (str "text") = Some (JString t) ->
        messages (app (submit net w))
        = messages (app w) ++ [userMessage (input (app w)); botMessage t])
  /\ (forall r,
        classify (headersGet r (str "content-type")) = EventStream ->
        handleResponse r = eventStreamPath r).
Proof.
  split; [|split; [|split]].
  - intros [s|]; simpl.
    + split.
      * destruct (nonEmpty s && includes s (str "application/json")) eqn:E;
          [|discriminate].
        intros _. exists s. apply andb_prop in E. now split.
      * intros (s' & Hs & Hinc). injection Hs as <-. rewrite Hinc.
        destruct s; [discriminate Hinc|reflexivity].
    + split; [discriminate|]. intros (s & Hs & _). discriminate.
  - apply handleResponse_single.
  - intros net w r bytes members t Hd Hnet Hok Hk Hbytes Hparse Hget.
    rewrite submit_dispatched by assumption.
    unfold tryFinally, tryCatch.
    rewrite (exchange_ok net (app w) r (prepared w) Hnet Hok).
    set (W := snd (trackCorrelation (app w) r
                     (snd (fetch net (requestFor (app w)) (prepared w))))).
    assert (Hlog : messages (app W) =
                   (messages (app w) ++ [userMessage (input (app w))])
                     ++ [botMessage []]).
    { unfold W. rewrite trackCorrelation_messages. unfold fetch.
      destruct (net (requestFor (app w))); reflexivity. }
    assert (Hv : truthy (JString t) = true
                 \/ (JString t = JString [] /\ text (botMessage []) = JString [])).
    { destruct t; [right; split; reflexivity|left; reflexivity]. }
    rewrite (handleResponse_single r W _ (botMessage []) bytes members
               (JString t) Hk Hbytes Hparse Hget Hlog Hv).
    simpl. now rewrite <- app_assoc.
  - intros r Hk. unfold handleResponse. rewrite Hk. reflexivity.
Qed.

Lemma contains_workflowError_message msg : contains (workflowError msg) msg.
Proof.
  exists (str "An error occurred in your n8n workflow: " ++ [QUOTE]),
         ([QUOTE] ++ [LF; LF] ++ checklist).
  unfold workflowError. now rewrite <- !app_assoc.
Qed.

Lemma contains_workflowError_checklist msg : contains (workflowError msg) checklist.
Proof.
  exists (str "An error occurred in your n8n workflow: "
            ++ [QUOTE] ++ msg ++ [QUOTE] ++ [LF; LF]), [].
  unfold workflowError. now rewrite app_nil_r, <- !app_assoc.
Qed.

Lemma contains_genericError raw : contains (genericError raw) raw.
Proof.
  exists (str "Error: "),
         (str ". Please check the webhook URL and your n8n workflow.").
  reflexivity.
Qed.

(** The [catch] block on a message whose normalized form is known. *)
Lemma handleError_sealed message u base m w :
  normalize message w = (Normal u, w) ->
  messages (app w) = base ++ [m] ->
  error (app (snd (handleError message w))) = u
  /\ messages (app (snd (handleError message w))) = base ++ [sealed u m].
Proof.
  intros Hn Hlog. unfold handleError, bind. rewrite Hn. cbv beta iota.
  unfold setError, onApp. cbv beta iota. unfold setMessages. cbn [app messages].
  rewrite Hlog, sealError_snoc. simpl. now split.
Qed.


End WithPlatform.

(** *** The properties on the sample runs *)

Lemma loading_flag_cleared_witness :
  dispatches (app Sample.ready) = true
  /\ isLoading
       (app (@submit Sample.v8 (Sample.respond Sample.invalidApiKey) Sample.ready))
     = false.
Proof.
  split; [vm_compute; reflexivity|].
  destruct (@loading_flag_cleared Sample.v8
              (Sample.respond Sample.invalidApiKey) Sample.ready) as [H _];
    [vm_compute; reflexivity|exact H].
Defined.

Lemma only_last_message_replaced_witness :
  exists m,
    messages (app (@submit Sample.v8 (Sample.respond Sample.hiThere) Sample.ready))
    = messages (app Sample.ready) ++ [userMessage (str "hello"); m]
    /\ sender m = Some Bot.
Proof.
  destruct (@only_last_message_replaced Sample.v8
              (Sample.respond Sample.hiThere) Sample.ready) as (_ & _ & _ & H).
  apply H. vm_compute; reflexivity.
Defined.

Lemma failed_response_stores_no_correlation_witness :
  headersGet Sample.failsWithA CHAT_ID_HEADER = Some (str "A")
  /\ chatId (app (@submit Sample.v8 (Sample.respond Sample.failsWithA) Sample.ready))
     = None.
Proof.
  split; [vm_compute; reflexivity|].
  refine (proj1 (@failed_response_stores_no_correlation Sample.v8
                   (Sample.respond Sample.failsWithA) Sample.ready
                   Sample.failsWithA _ _ _ _));
    vm_compute; reflexivity.
Defined.


Lemma rejected_send_witness :
  @submit Sample.v8 (Sample.respond Sample.hiThere) Sample.blank = Sample.blank
  /\ sent (@submit Sample.v8 (Sample.respond Sample.hiThere) Sample.noUrl) = []
  /\ error (app (@submit Sample.v8 (Sample.respond Sample.hiThere) Sample.noUrl))
     = configurationError.
Proof.
  split.
  - apply (proj1 (@rejected_send Sample.v8 (Sample.respond Sample.hiThere)
                    Sample.blank)).
    vm_compute; reflexivity.
  - destruct (proj2 (@rejected_send Sample.v8 (Sample.respond Sample.hiThere)
                       Sample.noUrl)) as (Hs & _ & He).
    + vm_compute; reflexivity.
    + vm_compute; reflexivity.
    + right. vm_compute; reflexivity.
    + split; [exact Hs|exact He].
Defined.

Lemma response_classification_witness :
  classify (headersGet Sample.hiThere (str "content-type")) = SingleObject
  /\ messages (app (@submit Sample.v8 (Sample.respond Sample.hiThere) Sample.ready))
     = messages (app Sample.ready)
         ++ [userMessage (str "hello"); botMessage (str "Hi there")].
Proof.
  split; [vm_compute; reflexivity|].
  destruct (@response_classification Sample.v8) as (_ & _ & H & _).
  apply (H (Sample.respond Sample.hiThere) Sample.ready Sample.hiThere
           (Sample.object1Bytes "text" "Hi there")
           [(str "text", JString (str "Hi there"))]
           (str "Hi there")); vm_compute; reflexivity.
Defined.



(** C5, as stated, fails: a send with blanks for input shows no
    banner. *)
Lemma blank_input_shows_no_banner :
  nonEmpty (trim (input (app Sample.blank))) = false
  /\ error (app (@submit Sample.v8 (Sample.respond Sample.hiThere) Sample.blank))
     = []
  /\ error (app (@submit Sample.v8 (Sample.respond Sample.hiThere) Sample.blank))
     <> configurationError.
Proof.
  repeat split; try (vm_compute; reflexivity). vm_compute. discriminate.
Qed.


(** The scenario of the single object: [Content-Type: application/json]
    and the body [{"text":"Hi there"}]. *)
Example hi_there_scenario :
  messages (app (@submit Sample.v8 (Sample.respond Sample.hiThere) Sample.ready))
  = messages (app Sample.ready)
      ++ [userMessage (str "hello"); botMessage (str "Hi there")].
Proof. vm_compute; reflexivity. Qed.

(** A new chat clears the correlation identifier and resets the log. *)
Example new_chat_scenario :
  let w := newChat (@submit Sample.v8 (Sample.respond Sample.answersWithA)
                      Sample.ready) in
  chatId (app w) = None /\ List.length (messages (app w)) = 1.
Proof. split; vm_compute; reflexivity. Qed.

End Properties.

(** * More of the engine *)

(** ** Lines of a stream *)

Module ReadingFacts.
Import App Spec Reading Coercion MonadFacts SplitFacts LineBufferFacts
  EngineFacts InvariantFacts StreamFacts.

Lemma dropWhile_app p (a b : jsstring) :
  dropWhile p (a ++ b)
  = match dropWhile p a with
    | [] => dropWhile p b
    | c :: r => (c :: r) ++ b
    end.
Proof.
  induction a as [|c a IH]; simpl; [reflexivity|].
  destruct (p c); [exact IH|reflexivity].
Qed.

Lemma dropWhile_all p (a : jsstring) :
  Forall (fun c => p c = true) a -> dropWhile p a = [].
Proof.
  induction 1 as [|c a Hc _ IH]; simpl; [reflexivity|]. now rewrite Hc.
Qed.

Lemma trimStart_blank pre s : blankString pre -> trimStart (pre ++ s) = trimStart s.
Proof.
  intros H. unfold trimStart. rewrite dropWhile_app.
  now rewrite (dropWhile_all _ pre H).
Qed.

Lemma trimEnd_blank s post : blankString post -> trimEnd (s ++ post) = trimEnd s.
Proof.
  intros H. unfold trimEnd. rewrite rev_app_distr, dropWhile_app.
  rewrite dropWhile_all; [reflexivity|].
  apply Forall_rev. exact H.
Qed.

Lemma trimEnd_nil : trimEnd [] = [].
Proof. reflexivity. Qed.

(** White space around a string does not show after [trim]. *)
Lemma trim_blank pre s post :
  blankString pre -> blankString post -> trim (pre ++ s ++ post) = trim s.
Proof.
  intros Hpre Hpost. unfold trim. rewrite trimStart_blank by assumption.
  unfold trimStart. rewrite dropWhile_app.
  destruct (dropWhile isWhiteSpace s) as [|c r] eqn:E.
  - rewrite dropWhile_all by assumption. reflexivity.
  - now apply trimEnd_blank.
Qed.

Section WithPlatform.
Context {platform : Platform}.

Lemma processLine_silent line w :
  fragment line = None -> processLine line w = (Normal tt, w).
Proof.
  unfold fragment, processLine. destruct (dataPayload line) as [p|]; [|reflexivity].
  destruct (nonEmpty p); [|reflexivity].
  unfold tryCatch, bind, jsonParse.
  destruct (Json.parse p) as [v|]; [|reflexivity].
  destruct v as [| | | | |members]; try reflexivity.
  simpl. destruct (getMember members (str "text")) as [t|]; [|reflexivity].
  destruct (truthy t); [discriminate|reflexivity].
Qed.

Lemma processLine_string line t base m s w :
  fragment line = Some (JString t) ->
  messages (app w) = base ++ [m] -> text m = JString s ->
  processLine line w
  = (Normal tt, withLog (base ++ [withText (JString (s ++ t)) m]) w).
Proof.
  unfold fragment, processLine. intros Hf Hlog Htext.
  destruct (dataPayload line) as [p|]; [|discriminate].
  destruct p as [|c p]; [rewrite parse_empty in Hf; discriminate|].
  simpl nonEmpty. cbv iota. unfold tryCatch, bind, jsonParse.
  destruct (Json.parse (c :: p)) as [v|]; [|discriminate].
  destruct v as [| | | | |members]; try discriminate.
  simpl in *. destruct (getMember members (str "text")) as [x|]; [|discriminate].
  destruct (truthy x) eqn:Hx; [|discriminate]. injection Hf as ->.
  unfold setMessages. rewrite Hlog, appendText_snoc, Htext, plus_strings.
  reflexivity.
Qed.

Lemma processLine_textual line base m s w :
  textual line ->
  messages (app w) = base ++ [m] -> text m = JString s ->
  processLine line w
  = (Normal tt, withLog (base ++ [withText (JString (s ++ lineText line)) m]) w).
Proof.
  unfold textual, lineText. intros Ht Hlog Htext.
  destruct (fragment line) as [v|] eqn:Hf.
  - destruct v; try contradiction. now apply processLine_string.
  - rewrite processLine_silent by assumption.
    rewrite app_nil_r, <- Htext, withText_same, <- Hlog, withLog_same. reflexivity.
Qed.

Lemma forEach_textual lines : forall base m s w,
  Forall textual lines ->
  messages (app w) = base ++ [m] -> text m = JString s ->
  forEach processLine lines w
  = (Normal tt,
     withLog (base ++ [withText (JString (s ++ List.concat (map lineText lines))) m]) w).
Proof.
  induction lines as [|line lines IH]; intros base m s w Hall Hlog Htext.
  - simpl. rewrite app_nil_r, <- Htext, withText_same, <- Hlog, withLog_same.
    reflexivity.
  - inversion Hall as [|? ? Hl Hrest]; subst. simpl. unfold bind.
    rewrite (processLine_textual line base m s w Hl Hlog Htext).
    rewrite (IH base (withText (JString (s ++ lineText line)) m) (s ++ lineText line));
      [|assumption|reflexivity|reflexivity].
    now rewrite app_assoc.
Qed.

Lemma eventStreamPath_textual r chunks lines tail base m s w :
  body r = Some {| App.chunks := chunks; failure := None |} ->
  streamText (List.concat chunks) = terminated lines ++ tail ->
  Forall isLine lines -> isLine tail -> Forall textual lines ->
  messages (app w) = base ++ [m] -> text m = JString s ->
  eventStreamPath r w
  = (Normal tt,
     withLog (base ++ [withText (JString (s ++ List.concat (map lineText lines))) m]) w).
Proof.
  intros Hbody Hstream Hlines Htail Hall Hlog Htext.
  unfold eventStreamPath. rewrite Hbody. simpl.
  rewrite readLoop_forEach, pushAll_empty. simpl fst. rewrite Hstream.
  rewrite split_terminated by assumption.
  rewrite (split_isLine tail Htail), removelast_last.
  unfold bind. now rewrite (forEach_textual lines base m s w Hall Hlog Htext).
Qed.

(** The loop over the lines never throws. *)
Lemma forEach_processLine_normal lines : forall w,
  fst (forEach processLine lines w) = Normal tt.
Proof.
  induction lines as [|line lines IH]; intros w; [reflexivity|].
  simpl. unfold bind.
  assert (H : fst (processLine line w) = Normal tt).
  { unfold processLine. destruct (dataPayload line) as [p|]; [|reflexivity].
    destruct (nonEmpty p); [|reflexivity].
    unfold tryCatch, bind, jsonParse.
    destruct (Json.parse p) as [v|]; [|reflexivity].
    destruct v as [| | | | |members]; try reflexivity.
    simpl. destruct (getMember members (str "text")) as [t|]; [|reflexivity].
    destruct (truthy t); [|reflexivity].
    unfold setMessages. destruct (appendText t (messages (app w))); reflexivity. }
  destruct (processLine line w) as [c w1]. simpl in H. subst c. apply IH.
Qed.

End WithPlatform.
End ReadingFacts.

(** ** How a send ends *)

Module OutcomeFacts.
Import App Spec Reading Coercion Regex MonadFacts EngineFacts InvariantFacts
  StreamFacts ReadingFacts.

Lemma genericError_not_empty e : genericError e <> [].
Proof. discriminate. Qed.

Lemma workflowError_not_empty s : workflowError s <> [].
Proof. discriminate. Qed.

Section WithPlatform.
Context {platform : Platform}.

Lemma normalize_total e :
  exists u,
    (forall w, normalize e w = (Normal u, w))
    /\ (u = genericError e \/ exists s, u = workflowError s)
    /\ (matchBraces e = None -> u = genericError e).
Proof.
  assert (Hgen : forall c : M jsstring,
            (forall w, c w = (Normal (genericError e), w)) ->
            exists u, (forall w, c w = (Normal u, w))
                      /\ (u = genericError e \/ exists s, u = workflowError s)
                      /\ (matchBraces e = None -> u = genericError e)).
  { intros c Hc. exists (genericError e). repeat split; auto. }
  unfold normalize. destruct (matchBraces e) as [m|]; [|now apply Hgen].
  unfold tryCatch, bind, jsonParse.
  destruct (Json.parse m) as [v|]; [|now apply Hgen].
  destruct v as [| | | | |members]; try now apply Hgen.
  simpl. destruct (getMember members (str "message")) as [x|]; [|now apply Hgen].
  destruct (truthy x); [|now apply Hgen].
  unfold interpolate. destruct (toString x) as [s|]; [|now apply Hgen].
  exists (workflowError s). repeat split; eauto. discriminate.
Qed.

Lemma normalize_generic e w :
  matchBraces e = None -> normalize e w = (Normal (genericError e), w).
Proof. intros H. unfold normalize. now rewrite H. Qed.

(** The [catch] block on a log that ends with a bot message. *)
Lemma handleError_reply e u base w :
  (forall w0, normalize e w0 = (Normal u, w0)) ->
  logFrame base (Some Bot) w ->
  error (app (snd (handleError e w))) = u
  /\ messages (app (snd (handleError e w))) = base ++ [errorReply u]
  /\ chatId (app (snd (handleError e w))) = chatId (app w)
  /\ sent (snd (handleError e w)) = sent w.
Proof.
  intros Hn (m & Hlog & Hs). unfold handleError, bind. rewrite Hn. cbv beta iota.
  unfold setError, onApp. cbv beta iota. unfold setMessages. cbn [app messages].
  rewrite Hlog, sealError_snoc. simpl. unfold sealed, errorReply. rewrite Hs.
  repeat split.
Qed.

(** *** The open reply *)

Lemma openReply_append base v :
  preserves (openReply base) (setMessages (appendText v)).
Proof.
  intros w (He & m & Hm & Hs & Hi). unfold setMessages.
  rewrite Hm, appendText_snoc.
  destruct (plus (text m) v) as [t|]; simpl.
  - split; [exact He|]. exists (withText t m). now repeat split.
  - split; [exact He|]. exists m. now repeat split.
Qed.

Lemma openReply_set base v :
  preserves (openReply base) (setMessages (setText v)).
Proof.
  intros w (He & m & Hm & Hs & Hi). unfold setMessages.
  rewrite Hm, setText_snoc. simpl.
  split; [exact He|]. exists (withText v m). now repeat split.
Qed.

Lemma openReply_fetch base net req : preserves (openReply base) (fetch net req).
Proof.
  intros w H. unfold fetch. destruct (net req); exact H.
Qed.

Lemma openReply_track base props r :
  preserves (openReply base) (trackCorrelation props r).
Proof.
  unfold trackCorrelation.
  destruct (headersGet r CHAT_ID_HEADER) as [c|]; [|auto with engine].
  destruct (nonEmpty c && negb (holdsChatId (chatId props))); [|auto with engine].
  intros w H. exact H.
Qed.

Lemma openReply_exchange base net props :
  preserves (openReply base) (exchange net props).
Proof.
  apply stable_exchange.
  - apply openReply_append.
  - apply openReply_set.
  - apply openReply_fetch.
  - apply openReply_track.
Qed.

Lemma openReply_prepared w :
  openReply (messages (app w) ++ [userMessage (input (app w))]) (prepared w).
Proof.
  split; [reflexivity|]. exists (botMessage []). repeat split.
Qed.

Lemma openReply_logFrame base w : openReply base w -> logFrame base (Some Bot) w.
Proof. intros (_ & m & Hm & Hs & _). exists m. now split. Qed.

(** A send that went out, when its [try] block throws [e]. *)
Lemma submit_thrown net w e u w1 :
  dispatches (app w) = true ->
  exchange net (app w) (prepared w) = (Throw e, w1) ->
  (forall w0, normalize e w0 = (Normal u, w0)) ->
  error (app (submit net w)) = u
  /\ messages (app (submit net w))
     = messages (app w) ++ [userMessage (input (app w)); errorReply u]
  /\ chatId (app (submit net w)) = chatId (app w1)
  /\ isError (errorReply u) = true.
Proof.
  intros Hd Hex Hn. rewrite submit_dispatched by assumption.
  unfold tryFinally, tryCatch. rewrite Hex.
  assert (Hframe : logFrame (messages (app w) ++ [userMessage (input (app w))])
                     (Some Bot) w1).
  { apply openReply_logFrame.
    pose proof (openReply_exchange _ net (app w) (prepared w)
                  (openReply_prepared w)) as H.
    rewrite Hex in H. exact H. }
  destruct (handleError_reply e u _ w1 Hn Hframe) as (He & Hm & Hc & _).
  destruct (handleError e w1) as [c w2]. simpl in *.
  repeat split; [exact He| |exact Hc].
  rewrite Hm, <- app_assoc. reflexivity.
Qed.

(** The stream path on a body whose read fails after the chunks. *)
Lemma eventStreamPath_failure r chunks e w :
  body r = Some {| App.chunks := chunks; failure := Some e |} ->
  exists w1, eventStreamPath r w = (Throw e, w1).
Proof.
  intros Hbody. unfold eventStreamPath. rewrite Hbody. simpl.
  rewrite readLoop_forEach. unfold bind.
  pose proof (forEach_processLine_normal
                (fst (LineBuffer.pushAll LineBuffer.empty chunks)) w) as H.
  destruct (forEach processLine _ w) as [c w1]. simpl in H. subst c.
  exists w1. reflexivity.
Qed.

End WithPlatform.
End OutcomeFacts.

(** ** The split of a message at its URLs *)

Module ContentFacts.
Import View.

Lemma startsWith_nil s : startsWith s [] = true.
Proof. destruct s; reflexivity. Qed.

Lemma startsWithIgnoreCase_nil s : startsWithIgnoreCase s [] = true.
Proof. destruct s; reflexivity. Qed.

Lemma startsWith_length s p : startsWith s p = true -> List.length p <= List.length s.
Proof.
  revert s. induction p as [|c p IH]; intros s H; simpl; [lia|].
  destruct s as [|d s]; [discriminate|]. simpl in H.
  apply andb_prop in H. destruct H as [_ H]. apply IH in H. simpl. lia.
Qed.

Lemma startsWith_app s rest p : startsWith s p = true -> startsWith (s ++ rest) p = true.
Proof.
  revert s. induction p as [|c p IH]; intros s H; [apply startsWith_nil|].
  destruct s as [|d s]; [discriminate|]. simpl in *.
  apply andb_prop in H. destruct H as [-> H]. now apply IH.
Qed.

Lemma startsWith_firstn s p n :
  startsWith s p = true -> List.length p <= n -> startsWith (firstn n s) p = true.
Proof.
  revert s n. induction p as [|c p IH]; intros s n H Hn; [apply startsWith_nil|].
  destruct s as [|d s]; [discriminate|]. destruct n as [|n]; [simpl in Hn; lia|].
  simpl in *. apply andb_prop in H. destruct H as [-> H]. apply IH; [exact H|lia].
Qed.

Lemma startsWithIgnoreCase_length s p :
  startsWithIgnoreCase s p = true -> List.length p <= List.length s.
Proof.
  revert s. induction p as [|c p IH]; intros s H; simpl; [lia|].
  destruct s as [|d s]; [discriminate|]. simpl in H.
  apply andb_prop in H. destruct H as [_ H]. apply IH in H. simpl. lia.
Qed.

Lemma startsWithIgnoreCase_app s rest p :
  startsWithIgnoreCase s p = true -> startsWithIgnoreCase (s ++ rest) p = true.
Proof.
  revert s. induction p as [|c p IH]; intros s H; [apply startsWithIgnoreCase_nil|].
  destruct s as [|d s]; [discriminate|]. simpl in *.
  apply andb_prop in H. destruct H as [-> H]. now apply IH.
Qed.

Lemma startsWithIgnoreCase_firstn s p n :
  startsWithIgnoreCase s p = true -> List.length p <= n ->
  startsWithIgnoreCase (firstn n s) p = true.
Proof.
  revert s n. induction p as [|c p IH]; intros s n H Hn;
    [apply startsWithIgnoreCase_nil|].
  destruct s as [|d s]; [discriminate|]. destruct n as [|n]; [simpl in Hn; lia|].
  simpl in *. apply andb_prop in H. destruct H as [-> H]. apply IH; [exact H|lia].
Qed.

Lemma urlEnd_urlChar c : urlEnd c = true -> urlChar c = true.
Proof.
  unfold urlEnd, urlChar. intros H.
  apply orb_true_iff in H. destruct H as [H|H]; [now rewrite H|].
  apply orb_true_iff. right. simpl in *.
  repeat match goal with
  | H : (_ || _) = true |- _ => apply orb_true_iff in H; destruct H as [H|H]
  end; try discriminate; rewrite H; repeat rewrite orb_true_r; reflexivity.
Qed.

Lemma letter_urlEnd c : isAsciiLetter c = true -> urlEnd c = true.
Proof. unfold urlEnd. now intros ->. Qed.

Lemma urlTail_bounds t : forall n, urlTail t = Some n -> 1 <= n <= List.length t.
Proof.
  induction t as [|c r IH]; intros n H; simpl in H; [discriminate|].
  destruct (urlChar c); [|discriminate].
  destruct (urlTail r) as [m|].
  - injection H as <-. specialize (IH m eq_refl). simpl. lia.
  - destruct (urlEnd c); [|discriminate]. injection H as <-. simpl. lia.
Qed.

Lemma urlTail_app t rest : forall n,
  urlTail t = Some n -> urlTail (t ++ rest) <> None.
Proof.
  induction t as [|c r IH]; intros n H; simpl in *; [discriminate|].
  destruct (urlChar c); [|discriminate].
  destruct (urlTail r) as [m|].
  - specialize (IH m eq_refl). destruct (urlTail (r ++ rest)); [discriminate|congruence].
  - destruct (urlEnd c); [|discriminate].
    destruct (urlTail (r ++ rest)); discriminate.
Qed.

Lemma urlTail_firstn t : forall n,
  urlTail t = Some n -> urlTail (firstn n t) = Some n.
Proof.
  induction t as [|c r IH]; intros n H; simpl in H; [discriminate|].
  destruct (urlChar c) eqn:Hc; [|discriminate].
  destruct (urlTail r) as [m|] eqn:Hr.
  - injection H as <-. simpl. rewrite Hc, (IH m eq_refl). reflexivity.
  - destruct (urlEnd c) eqn:He; [|discriminate]. injection H as <-.
    simpl. rewrite Hc, He. reflexivity.
Qed.

(** After the tail of a URL comes no character that could end one. *)
Lemma urlTail_next t : forall n,
  urlTail t = Some n ->
  match skipn n t with
  | c :: _ => urlEnd c = false
  | [] => True
  end.
Proof.
  induction t as [|c r IH]; intros n H; simpl in H; [discriminate|].
  destruct (urlChar c); [|discriminate].
  destruct (urlTail r) as [m|] eqn:Hr.
  - injection H as <-. simpl. now apply IH.
  - destruct (urlEnd c); [|discriminate]. injection H as <-. simpl.
    destruct r as [|d r']; [exact I|]. simpl in Hr.
    destruct (urlChar d) eqn:Hd.
    + destruct (urlTail r'); [discriminate|].
      destruct (urlEnd d); [discriminate|reflexivity].
    + destruct (urlEnd d) eqn:He; [|reflexivity].
      apply urlEnd_urlChar in He. congruence.
Qed.


Lemma afterScheme_bounds t n : afterScheme t = Some n -> 4 <= n <= List.length t.
Proof.
  unfold afterScheme. destruct (startsWith t (str "://")) eqn:Hs; [|discriminate].
  apply startsWith_length in Hs. simpl in Hs.
  destruct (urlTail (skipn 3 t)) as [m|] eqn:Hm; [|discriminate].
  intros H. injection H as <-. apply urlTail_bounds in Hm.
  rewrite length_skipn in Hm. lia.
Qed.

Lemma afterScheme_app t rest n :
  afterScheme t = Some n -> afterScheme (t ++ rest) <> None.
Proof.
  unfold afterScheme. destruct (startsWith t (str "://")) eqn:Hs; [|discriminate].
  rewrite (startsWith_app _ rest _ Hs).
  pose proof (startsWith_length _ _ Hs) as Hl. simpl in Hl.
  destruct (urlTail (skipn 3 t)) as [m|] eqn:Hm; [|discriminate]. intros _.
  rewrite skipn_app. replace (3 - List.length t) with 0 by lia. simpl skipn at 2.
  pose proof (urlTail_app _ rest _ Hm) as H.
  destruct (urlTail (skipn 3 t ++ rest)); [discriminate|congruence].
Qed.

Lemma afterScheme_firstn t n :
  afterScheme t = Some n -> afterScheme (firstn n t) = Some n.
Proof.
  unfold afterScheme. destruct (startsWith t (str "://")) eqn:Hs; [|discriminate].
  destruct (urlTail (skipn 3 t)) as [m|] eqn:Hm; [|discriminate].
  intros H. injection H as <-.
  rewrite (startsWith_firstn _ _ (S (S (S m))) Hs) by (simpl; lia).
  rewrite skipn_firstn_comm. replace (S (S (S m)) - 3) with m by lia.
  now rewrite (urlTail_firstn _ _ Hm).
Qed.

Lemma afterScheme_next t n :
  afterScheme t = Some n ->
  match skipn n t with
  | c :: _ => urlEnd c = false
  | [] => True
  end.
Proof.
  unfold afterScheme. destruct (startsWith t (str "://")); [|discriminate].
  destruct (urlTail (skipn 3 t)) as [m|] eqn:Hm; [|discriminate].
  intros H. injection H as <-.
  replace (skipn (S (S (S m))) t) with (skipn m (skipn 3 t))
    by (rewrite skipn_skipn; f_equal; lia).
  now apply urlTail_next.
Qed.

Lemma afterScheme_colon t n : afterScheme t = Some n -> exists r, t = 58%N :: r.
Proof.
  unfold afterScheme. destruct t as [|c r]; [discriminate|]. intros H.
  destruct (startsWith (c :: r) (str "://")) eqn:Hs; [|discriminate].
  change (startsWith (c :: r) (str "://"))
    with ((58 =? c)%N && startsWith r (str "//")) in Hs.
  apply andb_prop in Hs. destruct Hs as [Hc _].
  apply N.eqb_eq in Hc. subst c. eauto.
Qed.

(** What [firstScheme] finds. *)
Lemma firstScheme_found candidates s n k :
  firstScheme candidates s = Some (n, k) ->
  exists p m,
    In p candidates /\ k = List.length p /\ n = k + m
    /\ startsWithIgnoreCase s p = true
    /\ afterScheme (skipn k s) = Some m.
Proof.
  induction candidates as [|p rest IH]; simpl; [discriminate|].
  destruct (startsWithIgnoreCase s p) eqn:Hp.
  - destruct (afterScheme (skipn (List.length p) s)) as [m|] eqn:Hm.
    + intros H. injection H as <- <-. exists p, m. repeat split; auto.
    + intros H. destruct (IH H) as (q & m & Hin & Hrest). exists q, m. split; auto.
  - intros H. destruct (IH H) as (q & m & Hin & Hrest). exists q, m. split; auto.
Qed.

Lemma firstScheme_some candidates s p m :
  In p candidates ->
  startsWithIgnoreCase s p = true ->
  afterScheme (skipn (List.length p) s) = Some m ->
  firstScheme candidates s <> None.
Proof.
  induction candidates as [|q rest IH]; simpl; [contradiction|].
  intros [->|Hin] Hp Hm.
  - rewrite Hp, Hm. discriminate.
  - destruct (startsWithIgnoreCase s q); [|now apply IH].
    destruct (afterScheme (skipn (List.length q) s)); [discriminate|now apply IH].
Qed.

Lemma scheme_letters p : In p schemes -> Forall (fun c => isAsciiLetter c = true) p
                                         /\ 1 <= List.length p.
Proof.
  intros H. simpl in H.
  repeat (destruct H as [<-|H]; [split; [repeat constructor|simpl; lia]|]).
  contradiction.
Qed.

Lemma upper_letter c d :
  isAsciiLetter c = true -> (upper c =? upper d)%N = true -> isAsciiLetter d = true.
Proof.
  unfold isAsciiLetter, upper. intros Hc H. apply N.eqb_eq in H.
  destruct (N.leb_spec 97 c), (N.leb_spec c 122), (N.leb_spec 97 d),
    (N.leb_spec d 122), (N.leb_spec 65 c), (N.leb_spec c 90),
    (N.leb_spec 65 d), (N.leb_spec d 90);
    simpl in *; try reflexivity; try discriminate; lia.
Qed.

Lemma startsWithIgnoreCase_letters s p :
  Forall (fun c => isAsciiLetter c = true) p ->
  startsWithIgnoreCase s p = true ->
  Forall (fun c => isAsciiLetter c = true) (firstn (List.length p) s).
Proof.
  intros Hp. revert s. induction Hp as [|c p Hc _ IH]; intros s H; [constructor|].
  destruct s as [|d s]; [discriminate|]. simpl in *.
  apply andb_prop in H. destruct H as [Hcd H].
  constructor; [now apply (upper_letter c)|now apply IH].
Qed.


Lemma matchAt_found prev s n k :
  matchAt prev s = Some (n, k) ->
  wordBoundary prev s = true /\ firstScheme schemes s = Some (n, k).
Proof.
  unfold matchAt. destruct (wordBoundary prev s); [auto|discriminate].
Qed.

Lemma matchAt_bounds prev s n k :
  matchAt prev s = Some (n, k) -> 1 <= k /\ k + 4 <= n /\ n <= List.length s.
Proof.
  intros H. apply matchAt_found in H. destruct H as [_ H].
  destruct (firstScheme_found _ _ _ _ H) as (p & m & Hin & -> & -> & Hp & Hm).
  apply scheme_letters in Hin. destruct Hin as [_ Hlen].
  apply afterScheme_bounds in Hm. rewrite length_skipn in Hm.
  apply startsWithIgnoreCase_length in Hp. lia.
Qed.

Lemma matchAt_head prev s n k :
  matchAt prev s = Some (n, k) ->
  exists c r, s = c :: r /\ isAsciiLetter c = true.
Proof.
  intros H. apply matchAt_found in H. destruct H as [_ H].
  destruct (firstScheme_found _ _ _ _ H) as (p & m & Hin & -> & -> & Hp & Hm).
  apply scheme_letters in Hin. destruct Hin as [Hl Hlen].
  pose proof (startsWithIgnoreCase_letters s p Hl Hp) as Hf.
  destruct p as [|c p]; [simpl in Hlen; lia|].
  destruct s as [|d s]; [discriminate|]. simpl in Hf. inversion Hf; subst. eauto.
Qed.

Lemma matchAt_scheme prev s n k :
  matchAt prev s = Some (n, k) ->
  Forall (fun c => isAsciiLetter c = true) (firstn k s).
Proof.
  intros H. apply matchAt_found in H. destruct H as [_ H].
  destruct (firstScheme_found _ _ _ _ H) as (p & m & Hin & -> & -> & Hp & Hm).
  apply scheme_letters in Hin. destruct Hin as [Hl _].
  now apply startsWithIgnoreCase_letters.
Qed.

(** After a match comes no letter. *)
Lemma matchAt_next prev s n k :
  matchAt prev s = Some (n, k) ->
  match skipn n s with
  | c :: _ => isAsciiLetter c = false
  | [] => True
  end.
Proof.
  intros H. apply matchAt_found in H. destruct H as [_ H].
  destruct (firstScheme_found _ _ _ _ H) as (p & m & Hin & -> & -> & Hp & Hm).
  apply afterScheme_next in Hm. rewrite skipn_skipn in Hm.
  replace (List.length p + m) with (m + List.length p) by lia.
  destruct (skipn (m + List.length p) s) as [|c r]; [exact I|].
  destruct (isAsciiLetter c) eqn:Hc; [|reflexivity].
  apply letter_urlEnd in Hc. congruence.
Qed.

Lemma wordBoundary_app prev b rest :
  b <> [] -> wordBoundary prev (b ++ rest) = wordBoundary prev b.
Proof. destruct b; [congruence|reflexivity]. Qed.

(** A match stays one when the string goes on. *)
Lemma matchAt_app prev b rest n k :
  matchAt prev b = Some (n, k) -> matchAt prev (b ++ rest) <> None.
Proof.
  intros H. destruct (matchAt_head _ _ _ _ H) as (c & r & -> & _).
  apply matchAt_found in H. destruct H as [Hw H].
  unfold matchAt. rewrite wordBoundary_app by discriminate. rewrite Hw.
  destruct (firstScheme_found _ _ _ _ H) as (p & m & Hin & -> & -> & Hp & Hm).
  pose proof (startsWithIgnoreCase_length _ _ Hp) as Hl.
  destruct (afterScheme (skipn (List.length p) ((c :: r) ++ rest))) as [m'|] eqn:Hm'.
  - apply (firstScheme_some schemes _ p m' Hin);
      [now apply startsWithIgnoreCase_app|exact Hm'].
  - exfalso. rewrite skipn_app in Hm'.
    replace (List.length p - List.length (c :: r)) with 0 in Hm' by lia.
    simpl skipn at 2 in Hm'. now apply (afterScheme_app _ rest _ Hm).
Qed.

(** What a match matched is matched when it stands alone. *)
Lemma matchAt_alone prev s n k :
  matchAt prev s = Some (n, k) -> matchAt None (firstn n s) <> None.
Proof.
  intros H. destruct (matchAt_head _ _ _ _ H) as (c & r & -> & Hc).
  pose proof (matchAt_bounds _ _ _ _ H) as (Hk & Hn & Hlen).
  apply matchAt_found in H. destruct H as [_ H].
  unfold matchAt. destruct n as [|n]; [lia|].
  assert (Hw : wordBoundary None (firstn (S n) (c :: r)) = true).
  { unfold wordBoundary. cbn [firstn]. unfold isWordChar. now rewrite Hc. }
  rewrite Hw.
  destruct (firstScheme_found _ _ _ _ H) as (p & m & Hin & -> & Heq & Hp & Hm).
  apply (firstScheme_some schemes _ p m Hin).
  - apply startsWithIgnoreCase_firstn; [exact Hp|lia].
  - rewrite skipn_firstn_comm. replace (S n - List.length p) with m by lia.
    now apply afterScheme_firstn.
Qed.

Lemma letters_no_match x : forall prev,
  Forall (fun c => isAsciiLetter c = true) x -> matchesFrom prev x = false.
Proof.
  induction x as [|c x IH]; intros prev Hx; [reflexivity|].
  simpl. destruct (matchAt prev (c :: x)) as [[n k]|] eqn:Hm.
  - exfalso. apply matchAt_found in Hm. destruct Hm as [_ Hm].
    destruct (firstScheme_found _ _ _ _ Hm) as (p & m & _ & -> & _ & _ & Ha).
    apply afterScheme_colon in Ha. destruct Ha as [r Hr].
    assert (Hin : In 58%N (skipn (List.length p) (c :: x))) by (rewrite Hr; now left).
    assert (Hall : Forall (fun c => isAsciiLetter c = true)
                     (skipn (List.length p) (c :: x))).
    { rewrite <- (firstn_skipn (List.length p) (c :: x)) in Hx.
      apply Forall_app in Hx. apply Hx. }
    rewrite Forall_forall in Hall. specialize (Hall _ Hin). discriminate.
  - apply IH. now inversion Hx.
Qed.

Lemma lastOr_cons ctx c a : lastOr ctx (c :: a) = lastOr (Some c) a.
Proof.
  unfold lastOr. simpl. destruct (rev a); reflexivity.
Qed.

Lemma lastOr_snoc ctx a c : lastOr ctx (a ++ [c]) = Some c.
Proof. unfold lastOr. rewrite rev_app_distr. reflexivity. Qed.

Lemma splitFrom_skip s : forall prev k piece,
  k <= List.length s ->
  splitFrom prev k piece s
  = splitFrom (lastOr prev (firstn k s)) 0 piece (skipn k s).
Proof.
  induction s as [|c r IH]; intros prev k piece Hk.
  - simpl in Hk. replace k with 0 by lia. reflexivity.
  - destruct k as [|k]; [reflexivity|].
    simpl in Hk. simpl firstn. simpl skipn. rewrite lastOr_cons.
    change (splitFrom prev (S k) piece (c :: r)) with (splitFrom (Some c) k piece r).
    apply IH. lia.
Qed.

Lemma splitFrom_join s : forall prev skip piece,
  skip <= List.length s ->
  List.concat (withoutSchemes (splitFrom prev skip piece s)) = piece ++ skipn skip s.
Proof.
  induction s as [|c r IH]; intros prev skip piece Hs.
  - simpl in Hs. replace skip with 0 by lia. reflexivity.
  - destruct skip as [|k].
    + simpl splitFrom. destruct (matchAt prev (c :: r)) as [[n k]|] eqn:Hm.
      * pose proof (matchAt_bounds _ _ _ _ Hm) as (Hk & Hn & Hlen).
        simpl in Hlen. destruct n as [|n]; [lia|].
        simpl withoutSchemes. simpl List.concat.
        rewrite (IH _ (S n - 1) []) by lia. simpl.
        replace (n - 0) with n by lia. now rewrite firstn_skipn.
      * rewrite (IH _ 0 (piece ++ [c])) by lia. simpl. now rewrite <- app_assoc.
    + simpl in Hs. change (splitFrom prev (S k) piece (c :: r))
        with (splitFrom (Some c) k piece r).
      rewrite IH by lia. reflexivity.
Qed.


Lemma noMatchIn_matches a : forall prev rest,
  noMatchIn prev a rest = true -> matchesFrom prev a = false.
Proof.
  induction a as [|c a IH]; intros prev rest H; [reflexivity|].
  simpl in H. simpl matchesFrom.
  destruct (matchAt prev (c :: a)) as [[n k]|] eqn:Hm.
  - exfalso. apply (matchAt_app _ _ rest) in Hm. simpl in Hm.
    destruct (matchAt prev (c :: a ++ rest)); [discriminate|congruence].
  - destruct (matchAt prev (c :: a ++ rest)); [discriminate|].
    now apply (IH _ rest).
Qed.

Lemma noMatchIn_snoc a : forall p0 c r,
  noMatchIn p0 a (c :: r) = true ->
  matchAt (lastOr p0 a) (c :: r) = None ->
  noMatchIn p0 (a ++ [c]) r = true.
Proof.
  induction a as [|d a IH]; intros p0 c r H Hm.
  - simpl. unfold lastOr in Hm. simpl in Hm. now rewrite Hm.
  - simpl in H. simpl. rewrite <- app_assoc. simpl.
    destruct (matchAt p0 (d :: a ++ c :: r)); [discriminate|].
    apply IH; [exact H|]. now rewrite lastOr_cons in Hm.
Qed.

Lemma text_part piece :
  matchesFrom None piece = false -> renderPart piece = Text piece.
Proof.
  intros H. unfold renderPart, containsUrl. rewrite H.
  now rewrite andb_false_r.
Qed.

Lemma link_part prev s n k :
  matchAt prev s = Some (n, k) -> renderPart (firstn n s) = Link (firstn n s).
Proof.
  intros H. unfold renderPart, containsUrl.
  pose proof (matchAt_alone _ _ _ _ H) as Ha.
  pose proof (matchAt_bounds _ _ _ _ H) as (Hk & Hn & Hlen).
  destruct (firstn n s) as [|c r] eqn:Hf.
  - exfalso. apply (f_equal (@List.length N)) in Hf.
    rewrite length_firstn in Hf. simpl in Hf. lia.
  - simpl. destruct (matchAt None (c :: r)); [reflexivity|congruence].
Qed.

Lemma no_letter_no_match prev s :
  noLetterAhead s -> matchAt prev s = None.
Proof.
  intros H. destruct (matchAt prev s) as [[n k]|] eqn:Hm; [|reflexivity].
  destruct (matchAt_head _ _ _ _ Hm) as (c & r & -> & Hc).
  simpl in H. congruence.
Qed.

Lemma collecting_next prev piece c r :
  collecting prev piece (c :: r) -> matchAt prev (c :: r) = None ->
  collecting (Some c) (piece ++ [c]) r.
Proof.
  intros [Hn Hp] Hm. split.
  - apply noMatchIn_snoc; [exact Hn|].
    destruct piece as [|d piece].
    + destruct Hp as [->|Hp]; [exact Hm|now apply no_letter_no_match].
    + now rewrite <- Hp.
  - destruct piece as [|d piece]; simpl.
    + reflexivity.
    + change (d :: piece ++ [c]) with ((d :: piece) ++ [c]).
      now rewrite lastOr_snoc.
Qed.

Lemma collecting_after prev s n k q :
  matchAt prev s = Some (n, k) -> collecting q [] (skipn n s).
Proof.
  intros H. split; [reflexivity|]. right.
  exact (matchAt_next _ _ _ _ H).
Qed.

Lemma splitFrom_markup m : forall s prev piece,
  List.length s <= m -> collecting prev piece s ->
  map renderPart (splitFrom prev 0 piece s) = markup (splitFrom prev 0 piece s).
Proof.
  induction m as [|m IH]; intros s prev piece Hlen Hc.
  - destruct s; [|simpl in Hlen; lia]. simpl.
    destruct Hc as [Hn _]. apply noMatchIn_matches in Hn.
    now rewrite text_part.
  - destruct s as [|c r].
    + simpl. destruct Hc as [Hn _]. apply noMatchIn_matches in Hn.
      now rewrite text_part.
    + simpl in Hlen. simpl splitFrom.
      destruct (matchAt prev (c :: r)) as [[n k]|] eqn:Hm.
      * pose proof (matchAt_bounds _ _ _ _ Hm) as (Hk & Hn & Hl).
        simpl in Hl. destruct n as [|n]; [lia|].
        rewrite splitFrom_skip by lia.
        cbn [map markup].
        rewrite (link_part _ _ _ _ Hm).
        rewrite (text_part (firstn k (c :: r)))
          by (apply letters_no_match; exact (matchAt_scheme prev _ _ _ Hm)).
        destruct Hc as [Hno _]. apply noMatchIn_matches in Hno.
        rewrite (text_part piece Hno).
        do 3 f_equal. apply IH.
        -- rewrite length_skipn. lia.
        -- replace (S n - 1) with n by lia.
           exact (collecting_after _ _ _ _ _ Hm).
      * apply IH; [lia|]. now apply (collecting_next prev).
Qed.


Lemma includes_skipn k : forall s p,
  startsWith (skipn k s) p = true -> includes s p = true.
Proof.
  induction k as [|k IH]; intros s p H.
  - cbn [skipn] in H. destruct s; cbn [includes]; now rewrite H.
  - destruct s as [|c s]; [cbn [skipn] in H; cbn [includes]; now rewrite H|].
    cbn [skipn] in H. apply IH in H. cbn [includes]. rewrite H.
    apply orb_true_r.
Qed.

Lemma afterScheme_starts t m :
  afterScheme t = Some m -> startsWith t (str "://") = true.
Proof.
  unfold afterScheme. destruct (startsWith t (str "://")); [auto|discriminate].
Qed.

Lemma matchAt_includes prev s n k :
  matchAt prev s = Some (n, k) -> includes s (str "://") = true.
Proof.
  intros H. apply matchAt_found in H. destruct H as [_ H].
  destruct (firstScheme_found _ _ _ _ H) as (p & m & _ & _ & _ & _ & Hm).
  apply afterScheme_starts in Hm.
  exact (includes_skipn _ _ _ Hm).
Qed.

Lemma includes_tail c r p : includes (c :: r) p = false -> includes r p = false.
Proof.
  simpl. intros H. apply orb_false_elim in H. apply H.
Qed.

Lemma splitFrom_plain s : forall prev piece,
  includes s (str "://") = false -> splitFrom prev 0 piece s = [piece ++ s].
Proof.
  induction s as [|c r IH]; intros prev piece H.
  - simpl. now rewrite app_nil_r.
  - simpl splitFrom. destruct (matchAt prev (c :: r)) as [[n k]|] eqn:Hm.
    + apply matchAt_includes in Hm. congruence.
    + rewrite IH by exact (includes_tail _ _ _ H). now rewrite <- app_assoc.
Qed.

Lemma startsWithIgnoreCase_upper p : forall s,
  startsWithIgnoreCase s p = true ->
  map upper (firstn (List.length p) s) = map upper p.
Proof.
  induction p as [|c p IH]; intros s H; [reflexivity|].
  destruct s as [|d s]; [discriminate|]. simpl in H.
  apply andb_prop in H. destruct H as [Hc H].
  apply N.eqb_eq in Hc. simpl. rewrite (IH _ H). now rewrite Hc.
Qed.

Lemma startsWith_eq p : forall t,
  startsWith t p = true -> t = p ++ skipn (List.length p) t.
Proof.
  induction p as [|c p IH]; intros t H; [reflexivity|].
  destruct t as [|d t]; [discriminate|]. simpl in H.
  apply andb_prop in H. destruct H as [Hc H].
  apply N.eqb_eq in Hc. subst d. simpl. f_equal. now apply IH.
Qed.

Lemma firstn_plus (k m : nat) : forall s : jsstring,
  firstn (k + m) s = firstn k s ++ firstn m (skipn k s).
Proof.
  induction k as [|k IH]; intros s; [reflexivity|].
  destruct s as [|c s]; [now rewrite skipn_nil, !firstn_nil|].
  simpl. now rewrite IH.
Qed.

Lemma matchAt_shape prev s n k :
  matchAt prev s = Some (n, k) ->
  (exists tail, tail <> [] /\ firstn n s = firstn k s ++ str "://" ++ tail)
  /\ In (map upper (firstn k s)) (map (map upper) schemes).
Proof.
  intros H. apply matchAt_found in H. destruct H as [_ H].
  destruct (firstScheme_found _ _ _ _ H) as (p & m & Hin & -> & -> & Hp & Hm).
  split.
  - pose proof (afterScheme_starts _ _ Hm) as Hs.
    pose proof (afterScheme_bounds _ _ Hm) as Hb.
    exists (firstn (m - 3) (skipn 3 (skipn (List.length p) s))). split.
    + intros He. apply (f_equal (@List.length N)) in He.
      rewrite length_firstn, !length_skipn in He. simpl in He.
      rewrite length_skipn in Hb. lia.
    + rewrite firstn_plus. f_equal.
      rewrite (startsWith_eq _ _ Hs) at 1.
      replace m with (List.length (str "://") + (m - 3)) at 1
        by (simpl; lia).
      rewrite firstn_app_2. reflexivity.
  - rewrite (startsWithIgnoreCase_upper _ _ Hp). now apply in_map.
Qed.

Lemma splitFrom_wellSplit s : forall prev skip piece,
  wellSplit (splitFrom prev skip piece s).
Proof.
  induction s as [|c r IH]; intros prev skip piece; [exact I|].
  destruct skip as [|j].
  - simpl splitFrom. destruct (matchAt prev (c :: r)) as [[n k]|] eqn:Hm.
    + destruct (matchAt_shape _ _ _ _ Hm) as [Hu Hs].
      cbn [wellSplit]. repeat split; [exact Hu|exact Hs|apply IH].
    + apply IH.
  - apply IH.
Qed.

Lemma splitUrls_markup s :
  map renderPart (splitUrls s) = markup (splitUrls s).
Proof.
  apply (splitFrom_markup (List.length s)); [lia|].
  split; [reflexivity|now left].
Qed.

End ContentFacts.

(** ** The form across a send *)

Module FormFacts.
Import App Spec Reading Coercion MonadFacts EngineFacts InvariantFacts.

Section WithPlatform.
Context {platform : Platform}.

Lemma formIs_setMessages u i f : preserves (formIs u i) (setMessages f).
Proof.
  intros w H. unfold setMessages. destruct (f (messages (app w))); exact H.
Qed.

Lemma formIs_onApp u i f :
  (forall st, n8nWebhookUrl (f st) = n8nWebhookUrl st) ->
  (forall st, input (f st) = input st) ->
  preserves (formIs u i) (onApp f).
Proof.
  intros Hu Hi w [H1 H2]. unfold formIs. simpl. now rewrite Hu, Hi.
Qed.

Lemma formIs_fetch u i net req : preserves (formIs u i) (fetch net req).
Proof.
  intros w H. unfold fetch. destruct (net req); exact H.
Qed.

Lemma formIs_track u i props r :
  preserves (formIs u i) (trackCorrelation props r).
Proof.
  unfold trackCorrelation.
  destruct (headersGet r CHAT_ID_HEADER) as [c|]; [|auto with engine].
  destruct (nonEmpty c && negb (holdsChatId (chatId props))); [|auto with engine].
  now apply formIs_onApp.
Qed.

Lemma formIs_attempt u i net props :
  preserves (formIs u i)
    (tryFinally (tryCatch (exchange net props) handleError) (setIsLoading false)).
Proof.
  apply stable_attempt; intros;
    first [apply formIs_setMessages | now apply formIs_onApp
          | apply formIs_fetch | apply formIs_track].
Qed.

(** *** The text of the bot message on the event stream path *)

Lemma plus_string a v t :
  plus (JString a) v = Some t -> exists s, t = JString s.
Proof.
  unfold plus. simpl. destruct (toPrimitive v) as [pb|]; [|discriminate].
  simpl. destruct (toString pb) as [y|]; [|discriminate].
  intros H. injection H as <-. eauto.
Qed.

Lemma stringReply_append base v :
  preserves (stringReply base) (setMessages (appendText v)).
Proof.
  intros w (m & s & Hm & Hs & Ht). unfold setMessages.
  rewrite Hm, appendText_snoc, Ht.
  destruct (plus (JString s) v) as [t|] eqn:Hp; simpl.
  - destruct (plus_string s v t Hp) as [s' ->].
    exists (withText (JString s') m), s'. repeat split; assumption.
  - exists m, s. repeat split; assumption.
Qed.

Lemma stringReply_seal base e :
  preserves (stringReply base) (setMessages (sealError e)).
Proof.
  intros w (m & s & Hm & Hs & Ht). unfold setMessages.
  rewrite Hm, sealError_snoc. simpl.
  exists (sealed e m), e. repeat split; assumption.
Qed.

Lemma stringReply_onApp base f :
  (forall st, messages (f st) = messages st) ->
  preserves (stringReply base) (onApp f).
Proof.
  intros Hf w (m & s & Hm & Hs). exists m, s. simpl. rewrite Hf. now split.
Qed.

Lemma stringReply_track base props r :
  preserves (stringReply base) (trackCorrelation props r).
Proof.
  unfold trackCorrelation.
  destruct (headersGet r CHAT_ID_HEADER) as [c|]; [|auto with engine].
  destruct (nonEmpty c && negb (holdsChatId (chatId props))); [|auto with engine].
  now apply stringReply_onApp.
Qed.

Lemma checkStatus_normal r w w1 :
  checkStatus r w = (Normal tt, w1) -> ok r = true /\ w1 = w.
Proof.
  unfold checkStatus. destruct (ok r).
  - intros H. injection H as <-. now split.
  - unfold bind. destruct (responseText r w) as [[t|e] w2]; discriminate.
Qed.

Lemma stringReply_exchange base net props :
  (forall r, net (requestFor props) = Responds r -> ok r = true ->
             classify (headersGet r (str "content-type")) = EventStream) ->
  preserves (stringReply base) (exchange net props).
Proof.
  intros Hstream w H. unfold exchange. unfold bind at 1. unfold fetch.
  destruct (net (requestFor props)) as [e|r] eqn:Hnet; [exact H|].
  match goal with
  | |- context [bind (checkStatus r) ?k ?w1] =>
      assert (H1 : stringReply base w1) by exact H;
      generalize dependent w1
  end.
  intros w1 H1. unfold bind at 1.
  pose proof (pure_checkStatus r w1) as Hpure.
  destruct (checkStatus r w1) as [[[]|e] w2] eqn:Hc.
  - destruct (checkStatus_normal r w1 w2 Hc) as [Hok ->].
    apply preserves_bind; [apply stringReply_track| |exact H1].
    intros _. unfold handleResponse. rewrite (Hstream r eq_refl Hok).
    unfold eventStreamPath. destruct (body r) as [b|]; [|auto with engine].
    apply stable_readLoop. apply stringReply_append.
  - simpl in *. now rewrite Hpure.
Qed.

Lemma stringReply_attempt base net props :
  (forall r, net (requestFor props) = Responds r -> ok r = true ->
             classify (headersGet r (str "content-type")) = EventStream) ->
  preserves (stringReply base)
    (tryFinally (tryCatch (exchange net props) handleError) (setIsLoading false)).
Proof.
  intros Hstream.
  apply preserves_tryFinally; [|now apply stringReply_onApp].
  apply preserves_tryCatch; [now apply stringReply_exchange|].
  apply stable_handleError;
    [apply stringReply_seal|intros e; now apply stringReply_onApp].
Qed.

End WithPlatform.
End FormFacts.

(** * Further properties of the engine *)

Module Extras.
Import App Spec Reading View Coercion Regex MonadFacts SplitFacts
  LineBufferFacts EngineFacts InvariantFacts StreamFacts ReadingFacts
  OutcomeFacts ContentFacts FormFacts.

Section WithPlatform.
Context {platform : Platform}.

(** The world when the response of a send that went out is handled. *)
Lemma received_log net w r :
  messages
    (app (snd (trackCorrelation (app w) r
                 (snd (fetch net (requestFor (app w)) (prepared w))))))
  = (messages (app w) ++ [userMessage (input (app w))]) ++ [botMessage []]
  /\ error
       (app (snd (trackCorrelation (app w) r
                    (snd (fetch net (requestFor (app w)) (prepared w))))))
     = [].
Proof.
  rewrite trackCorrelation_messages, trackCorrelation_error. unfold fetch.
  destruct (net (requestFor (app w))); split; reflexivity.
Qed.

(** X1. In an event stream, whatever follows the last line feed is
    never read as a line, and every newline-terminated line adds the
    text it carries or nothing: the send ends with the concatenation,
    in order, of the texts of the lines, and shows no error. *)
Theorem unterminated_remainder_is_dropped
    (net : Network) (w : World) (r : Response)
    (chunks : list (list byte)) (lines : list jsstring) (tail : jsstring) :
  dispatches (app w) = true ->
  net (requestFor (app w)) = Responds r ->
  streams r chunks ->
  Forall isLine lines -> isLine tail -> Forall textual lines ->
  streamText (List.concat chunks) = terminated lines ++ tail ->
  messages (app (submit net w))
  = messages (app w)
      ++ [userMessage (input (app w));
          botMessage (List.concat (map lineText lines))]
  /\ error (app (submit net w)) = [].
Proof.
  intros Hd Hnet (Hok & Hkind & Hbody) Hlines Htail Hall Hstream.
  rewrite submit_dispatched by assumption.
  unfold tryFinally, tryCatch.
  rewrite (exchange_ok net (app w) r (prepared w) Hnet Hok).
  unfold handleResponse. rewrite Hkind.
  destruct (received_log net w r) as [Hlog Herr].
  rewrite (eventStreamPath_textual r chunks lines tail _ (botMessage []) [] _
             Hbody Hstream Hlines Htail Hall Hlog eq_refl).
  simpl. split; [|exact Herr]. now rewrite <- app_assoc.
Qed.

(** X2. A line of the stream that is no [data:] line, or whose payload
    is empty, fails to decode, or decodes to [null], to a value that is
    no object or to an object without a truthy [text], changes nothing
    and does not stop the loop. *)
Theorem lines_without_text_change_nothing (line : jsstring) (w : World) :
  dataPayload line = None
  \/ (exists payload,
        dataPayload line = Some payload
        /\ (payload = []
            \/ Json.parse payload = None
            \/ exists v, Json.parse payload = Some v /\ usableText v = None)) ->
  processLine line w = (Normal tt, w).
Proof.
  intros H. apply processLine_silent. unfold fragment.
  destruct H as [-> | (p & -> & [-> | [-> | (v & -> & Hv)]])];
    try reflexivity. exact Hv.
Qed.

(** X3. White space around a line does not change what the line is
    read as; a frame ended by CR LF is read as the frame ended by LF. *)
Theorem frame_parser_ignores_surrounding_white_space
    (pre line post : jsstring) :
  blankString pre -> blankString post ->
  dataPayload (pre ++ line ++ post) = dataPayload line
  /\ (forall w, processLine (pre ++ line ++ post) w = processLine line w)
  /\ (forall t, carries line t -> carries (line ++ [13%N]) t).
Proof.
  intros Hpre Hpost.
  assert (Hp : forall a b, blankString a -> blankString b ->
               dataPayload (a ++ line ++ b) = dataPayload line).
  { intros a b Ha Hb. unfold dataPayload. now rewrite trim_blank. }
  split; [now apply Hp|]. split.
  - intros w. unfold processLine. now rewrite Hp.
  - intros t (Hline & p & members & Hdp & Hparse & Hget). split.
    + unfold isLine in *. intros Hin. apply in_app_or in Hin.
      destruct Hin as [Hin|[Heq|[]]]; [now apply Hline|discriminate].
    + exists p, members. split; [|now split].
      rewrite <- Hdp. apply (Hp [] [13%N]); repeat constructor.
Qed.


(** X5. The Error Normalizer never throws: on every error text it
    returns the generic message for that text or the workflow message
    for some value, and the generic one whenever the text holds no
    brace pair on one line. *)
Theorem normalizer_never_throws (e : jsstring) :
  exists u,
    (forall w, normalize e w = (Normal u, w))
    /\ (u = genericError e \/ exists s, u = workflowError s)
    /\ (matchBraces e = None -> u = genericError e).
Proof. apply normalize_total. Qed.

(** X6. When a read of the stream fails, whatever the chunks read
    before it appended is replaced: the send ends with the bot message
    sealed with the error of the failed read, which is also the
    banner. *)
Theorem failed_read_replaces_partial_text
    (net : Network) (w : World) (r : Response)
    (chunks : list (list byte)) (e : jsstring) :
  dispatches (app w) = true ->
  net (requestFor (app w)) = Responds r ->
  ok r = true ->
  classify (headersGet r (str "content-type")) = EventStream ->
  body r = Some {| App.chunks := chunks; failure := Some e |} ->
  matchBraces e = None ->
  error (app (submit net w)) = genericError e
  /\ messages (app (submit net w))
     = messages (app w)
         ++ [userMessage (input (app w)); errorReply (genericError e)].
Proof.
  intros Hd Hnet Hok Hkind Hbody Hmatch.
  pose proof (exchange_ok net (app w) r (prepared w) Hnet Hok) as Hex.
  unfold handleResponse in Hex. rewrite Hkind in Hex.
  match type of Hex with
  | _ = eventStreamPath r ?W =>
      destruct (eventStreamPath_failure r chunks e W Hbody) as [w1 Hw1]
  end.
  rewrite Hw1 in Hex.
  destruct (submit_thrown net w e (genericError e) w1 Hd Hex
              (fun w0 => normalize_generic e w0 Hmatch)) as (He & Hm & _).
  now split.
Qed.

(** X7. When the endpoint cannot be reached, the send makes its one
    request, stores no correlation identifier, and ends with the bot
    message sealed with the error of the rejection, which is also the
    banner. *)
Theorem rejected_fetch_is_sealed (net : Network) (w : World) (e : jsstring) :
  dispatches (app w) = true ->
  net (requestFor (app w)) = Rejects e ->
  matchBraces e = None ->
  error (app (submit net w)) = genericError e
  /\ messages (app (submit net w))
     = messages (app w)
         ++ [userMessage (input (app w)); errorReply (genericError e)]
  /\ chatId (app (submit net w)) = chatId (app w)
  /\ sent (submit net w) = sent w ++ [requestFor (app w)].
Proof.
  intros Hd Hnet Hmatch.
  assert (Hex : exchange net (app w) (prepared w)
                = (Throw e, snd (fetch net (requestFor (app w)) (prepared w)))).
  { unfold exchange, bind, fetch. rewrite Hnet. reflexivity. }
  destruct (submit_thrown net w e (genericError e) _ Hd Hex
              (fun w0 => normalize_generic e w0 Hmatch)) as (He & Hm & Hc & _).
  repeat split; [exact He|exact Hm| |now apply submit_sent].
  rewrite Hc. unfold fetch. rewrite Hnet. reflexivity.
Qed.

(** X8. On the single object path a body that does not decode is
    reported like a failed request: the bot message is sealed with the
    error of the decoder, which is also the banner. *)
Theorem undecodable_body_is_reported
    (net : Network) (w : World) (r : Response) (bytes : list byte) :
  dispatches (app w) = true ->
  net (requestFor (app w)) = Responds r ->
  ok r = true ->
  classify (headersGet r (str "content-type")) = SingleObject ->
  bodyBytes r = Some bytes ->
  Json.parse (Utf8.decodeAll bytes) = None ->
  matchBraces (syntaxErrorMessage (Utf8.decodeAll bytes)) = None ->
  error (app (submit net w))
  = genericError (syntaxErrorMessage (Utf8.decodeAll bytes))
  /\ messages (app (submit net w))
     = messages (app w)
         ++ [userMessage (input (app w));
             errorReply (genericError (syntaxErrorMessage (Utf8.decodeAll bytes)))].
Proof.
  intros Hd Hnet Hok Hkind Hbytes Hparse Hmatch.
  pose proof (exchange_ok net (app w) r (prepared w) Hnet Hok) as Hex.
  unfold handleResponse in Hex. rewrite Hkind in Hex.
  unfold singleObjectPath, responseJson, bind, responseText in Hex.
  unfold bodyBytes in Hbytes.
  assert (Hthrow : exists w1,
            exchange net (app w) (prepared w)
            = (Throw (syntaxErrorMessage (Utf8.decodeAll bytes)), w1)).
  { destruct (body r) as [b|].
    - destruct (failure b); [discriminate|]. injection Hbytes as <-.
      unfold ret, jsonParse in Hex. rewrite Hparse in Hex. eexists. exact Hex.
    - injection Hbytes as <-. change (Utf8.decodeAll []) with (@nil N) in *.
      unfold ret, jsonParse in Hex. rewrite Hparse in Hex. eexists. exact Hex. }
  destruct Hthrow as [w1 Hw1].
  destruct (submit_thrown net w _ _ w1 Hd Hw1
              (fun w0 => normalize_generic _ w0 Hmatch)) as (He & Hm & _).
  now split.
Qed.

(** X9. On the single object path a body that decodes to a value
    other than [null] without a truthy [text] leaves the bot message
    empty and shows no error. *)
Theorem single_object_without_text_stays_empty
    (net : Network) (w : World) (r : Response) (bytes : list byte) (v : value) :
  dispatches (app w) = true ->
  net (requestFor (app w)) = Responds r ->
  ok r = true ->
  classify (headersGet r (str "content-type")) = SingleObject ->
  bodyBytes r = Some bytes ->
  Json.parse (Utf8.decodeAll bytes) = Some v ->
  v <> JNull ->
  usableText v = None ->
  messages (app (submit net w))
  = messages (app w) ++ [userMessage (input (app w)); botMessage []]
  /\ error (app (submit net w)) = [].
Proof.
  intros Hd Hnet Hok Hkind Hbytes Hparse Hnull Hv.
  rewrite submit_dispatched by assumption.
  unfold tryFinally, tryCatch.
  rewrite (exchange_ok net (app w) r (prepared w) Hnet Hok).
  unfold handleResponse. rewrite Hkind.
  destruct (received_log net w r) as [Hlog Herr].
  set (W := snd (trackCorrelation (app w) r
                   (snd (fetch net (requestFor (app w)) (prepared w))))) in *.
  assert (Hsame : singleObjectPath r W = (Normal tt, W)).
  { unfold singleObjectPath, responseJson, bind, responseText.
    unfold bodyBytes in Hbytes.
    assert (Htext : match body r with
                    | Some b =>
                        match failure b with
                        | Some e => throw e
                        | None => ret (Utf8.decodeAll (List.concat (chunks b)))
                        end
                    | None => ret []
                    end W = (Normal (Utf8.decodeAll bytes), W)).
    { destruct (body r) as [b|].
      - destruct (failure b); [discriminate|]. injection Hbytes as <-. reflexivity.
      - injection Hbytes as <-. reflexivity. }
    rewrite Htext. unfold jsonParse. rewrite Hparse. simpl.
    destruct v as [| | | | |members]; try reflexivity; [congruence|].
    simpl in *. destruct (getMember members (str "text")) as [t|]; [|reflexivity].
    destruct (truthy t); [discriminate|reflexivity]. }
  rewrite Hsame. simpl. split; [|exact Herr].
  rewrite Hlog, <- app_assoc. reflexivity.
Qed.

(** *** Requests *)

Lemma submit_requests net w :
  sent (submit net w)
  = if dispatches (app w) then sent w ++ [requestFor (app w)] else sent w.
Proof.
  destruct (dispatches (app w)) eqn:Hd; [now apply submit_sent|].
  unfold submit, handleSendMessage. unfold dispatches in Hd.
  destruct (nonEmpty (trim (input (app w)))), (isLoading (app w)),
    (nonEmpty (trim (n8nWebhookUrl (app w)))),
    (startsWith (n8nWebhookUrl (app w)) (str "http"));
    simpl in *; try discriminate; reflexivity.
Qed.

(** X10. A submit makes one request, the POST of the input to the URL,
    when the guards of lines 45 and 47 pass, and none otherwise; when
    it makes none, the log, the correlation identifier, the loading
    flag and the input are left as they were. *)
Theorem send_makes_at_most_one_request (net : Network) (w : World) :
  sent (submit net w)
  = (if dispatches (app w) then sent w ++ [requestFor (app w)] else sent w)
  /\ (dispatches (app w) = false ->
      messages (app (submit net w)) = messages (app w)
      /\ chatId (app (submit net w)) = chatId (app w)
      /\ isLoading (app (submit net w)) = isLoading (app w)
      /\ input (app (submit net w)) = input (app w)).
Proof.
  split; [apply submit_requests|].
  intros Hd. unfold submit, handleSendMessage. unfold dispatches in Hd.
  destruct (nonEmpty (trim (input (app w)))) eqn:E1,
    (isLoading (app w)) eqn:E2,
    (nonEmpty (trim (n8nWebhookUrl (app w)))) eqn:E3,
    (startsWith (n8nWebhookUrl (app w)) (str "http")) eqn:E4;
    simpl in *; try discriminate; repeat split; congruence.
Qed.

Lemma headerValue_held c :
  holdsChatId c = true ->
  headerValue (requestHeadersFor c) CHAT_ID_HEADER = c.
Proof.
  destruct c as [[|x c]|]; simpl; intros H; try discriminate; reflexivity.
Qed.




(** X20. A send that went out leaves the URL as it was and the input
    empty: the message field is enabled, the submit button is disabled,
    and a second submit before anything is typed does nothing. *)
Theorem form_after_a_send (net net' : Network) (w : World) :
  dispatches (app w) = true ->
  input (app (submit net w)) = []
  /\ n8nWebhookUrl (app (submit net w)) = n8nWebhookUrl (app w)
  /\ inputDisabled (app (submit net w)) = false
  /\ submitDisabled (app (submit net w)) = true
  /\ submit net' (submit net w) = submit net w.
Proof.
  intros Hd.
  assert (Hform : formIs (n8nWebhookUrl (app w)) [] (submit net w)).
  { rewrite submit_dispatched by assumption. apply formIs_attempt.
    split; reflexivity. }
  assert (Hload : isLoading (app (submit net w)) = false).
  { rewrite submit_dispatched by assumption. unfold tryFinally.
    destruct (tryCatch (exchange net (app w)) handleError (prepared w)).
    reflexivity. }
  assert (Hurl : nonEmpty (n8nWebhookUrl (app w)) = true).
  { unfold dispatches in Hd. apply andb_prop in Hd. destruct Hd as [_ Hs].
    destruct (n8nWebhookUrl (app w)); [discriminate|reflexivity]. }
  destruct Hform as [Hu Hi].
  split; [exact Hi|]. split; [exact Hu|].
  split; [unfold inputDisabled; now rewrite Hload, Hu, Hurl|].
  split; [unfold submitDisabled; now rewrite Hload, Hi|].
  unfold submit at 1. unfold handleSendMessage. rewrite Hi. reflexivity.
Qed.

(** X21. On the single object path a truthy [text] that is no string
    is stored as it is in the bot message, with no error shown: the
    next render calls [split] on it and [MessageContent] throws. *)
Theorem non_string_text_cannot_be_rendered
    (net : Network) (w : World) (r : Response) (bytes : list byte)
    (members : list (jsstring * value)) (v : value) :
  dispatches (app w) = true ->
  net (requestFor (app w)) = Responds r ->
  ok r = true ->
  classify (headersGet r (str "content-type")) = SingleObject ->
  bodyBytes r = Some bytes ->
  Json.parse (Utf8.decodeAll bytes) = Some (JObject members) ->
  getMember members (str "text") = Some v ->
  truthy v = true ->
  (forall s, v <> JString s) ->
  messages (app (submit net w))
  = messages (app w)
      ++ [userMessage (input (app w)); withText v (botMessage [])]
  /\ error (app (submit net w)) = []
  /\ MessageContent v = None.
Proof.
  intros Hd Hnet Hok Hk Hbytes Hparse Hget Hv Hns.
  rewrite submit_dispatched by assumption.
  unfold tryFinally, tryCatch.
  rewrite (exchange_ok net (app w) r (prepared w) Hnet Hok).
  destruct (received_log net w r) as [Hlog Herr].
  set (W := snd (trackCorrelation (app w) r
                   (snd (fetch net (requestFor (app w)) (prepared w))))) in *.
  rewrite (Properties.handleResponse_single r W _ (botMessage []) bytes members
             v Hk Hbytes Hparse Hget Hlog (or_introl Hv)).
  simpl. split; [now rewrite <- app_assoc|]. split; [exact Herr|].
  destruct v; try reflexivity. now destruct (Hns s).
Qed.


End WithPlatform.

(** *** The brace match of line 143 *)

Lemma dotStarBrace_shape s : forall m,
  dotStarBrace s = Some m ->
  exists body after,
    s = m ++ after /\ m = body ++ [125%N] /\ onOneLine body
    /\ dotStarBrace after = None.
Proof.
  induction s as [|c r IH]; intros m H; simpl in H; [discriminate|].
  destruct (isLineTerminator c) eqn:Hc; [discriminate|].
  destruct (dotStarBrace r) as [m'|] eqn:Hr.
  - injection H as <-. destruct (IH m' eq_refl) as (body & after & -> & -> & Hb & Ha).
    exists (c :: body), after. repeat split; auto. now constructor.
  - destruct (N.eqb_spec c 125) as [->|]; [|discriminate]. injection H as <-.
    exists [], r. repeat split; auto. constructor.
Qed.

Lemma dotStarBrace_complete body : forall after,
  onOneLine body -> dotStarBrace (body ++ 125%N :: after) <> None.
Proof.
  induction body as [|c body IH]; intros after Hb; simpl.
  - destruct (dotStarBrace after); discriminate.
  - inversion Hb as [|? ? Hc Hrest]; subst. rewrite Hc.
    specialize (IH after Hrest).
    destruct (dotStarBrace (body ++ 125%N :: after)); [discriminate|congruence].
Qed.

Lemma matchBraces_complete before : forall body after,
  onOneLine body ->
  matchBraces (before ++ 123%N :: body ++ 125%N :: after) <> None.
Proof.
  induction before as [|c before IH]; intros body after Hb; simpl.
  - pose proof (dotStarBrace_complete body after Hb) as H.
    destruct (dotStarBrace (body ++ 125%N :: after)); [discriminate|congruence].
  - specialize (IH body after Hb).
    destruct (c =? 123)%N; [|exact IH].
    destruct (dotStarBrace _); [discriminate|exact IH].
Qed.

Lemma matchBraces_shape s : forall m,
  matchBraces s = Some m ->
  exists before body after,
    s = before ++ m ++ after
    /\ m = [123%N] ++ body ++ [125%N]
    /\ onOneLine body
    /\ dotStarBrace after = None.
Proof.
  induction s as [|c r IH]; intros m H; simpl in H; [discriminate|].
  assert (Hrest : matchBraces r = Some m ->
                  exists before body after,
                    c :: r = before ++ m ++ after
                    /\ m = [123%N] ++ body ++ [125%N]
                    /\ onOneLine body /\ dotStarBrace after = None).
  { intros Hr. destruct (IH m Hr) as (before & body & after & -> & Hm & Hb & Ha).
    exists (c :: before), body, after. repeat split; auto. }
  destruct (N.eqb_spec c 123) as [->|]; [|now apply Hrest].
  destruct (dotStarBrace r) as [m'|] eqn:Hr; [|now apply Hrest].
  injection H as <-.
  destruct (dotStarBrace_shape r m' Hr) as (body & after & -> & -> & Hb & Ha).
  exists [], body, after. repeat split; auto.
Qed.

(** X14. What [/{.*}/] matches in a text: a stretch of the text from
    an opening brace to the last closing brace that follows it before
    any line terminator; and it matches nothing exactly when no opening
    brace is followed on its line by a closing one. *)
Theorem brace_match_shape (s : jsstring) :
  (forall m,
     matchBraces s = Some m ->
     exists before body after,
       s = before ++ m ++ after
       /\ m = [123%N] ++ body ++ [125%N]
       /\ onOneLine body
       /\ dotStarBrace after = None)
  /\ (matchBraces s = None <->
      ~ exists before body after,
          s = before ++ [123%N] ++ body ++ [125%N] ++ after /\ onOneLine body).
Proof.
  split; [apply matchBraces_shape|].
  split.
  - intros Hnone (before & body & after & -> & Hb).
    now apply (matchBraces_complete before body after Hb).
  - intros Hno. destruct (matchBraces s) as [m|] eqn:Hm; [|reflexivity].
    exfalso. apply Hno. clear Hno. revert m Hm.
    induction s as [|c r IH]; intros m H; simpl in H; [discriminate|].
    assert (Hrest : matchBraces r = Some m ->
              exists before body after,
                c :: r = before ++ [123%N] ++ body ++ [125%N] ++ after
                /\ onOneLine body).
    { intros Hr. destruct (IH m Hr) as (before & body & after & -> & Hb).
      exists (c :: before), body, after. split; auto. }
    destruct (N.eqb_spec c 123) as [->|]; [|now apply Hrest].
    destruct (dotStarBrace r) as [m'|] eqn:Hr; [|now apply Hrest].
    destruct (dotStarBrace_shape r m' Hr) as (body & after & -> & -> & Hb & Ha).
    exists [], body, after. split; [|exact Hb].
    simpl. now rewrite <- app_assoc.
Qed.

Lemma parseMembers_object fuel : forall s acc v r,
  parseMembers fuel s acc = Some (v, r) -> exists members, v = JObject members.
Proof.
  induction fuel as [|f IH]; intros s acc v r H; [discriminate|].
  simpl in H. unfold membersBody in H.
  repeat match goal with
  | H : context [match ?x with _ => _ end] |- _ =>
      match type of H with
      | _ = Some _ => destruct x eqn:?; try discriminate
      end
  end.
  - eapply IH. eassumption.
  - injection H as <- _. eauto.
Qed.

Lemma parseValue_object fuel s x v r :
  skipWs s = 123%N :: x ->
  parseValue fuel s = Some (v, r) -> exists members, v = JObject members.
Proof.
  intros Hs H. destruct fuel as [|f]; [discriminate|].
  simpl in H. unfold valueBody in H. rewrite Hs in H. simpl in H.
  destruct (skipWs x) as [|d r1] eqn:Hx; [discriminate|].
  destruct (d =? 125)%N.
  - injection H as <- _. eauto.
  - now apply parseMembers_object in H.
Qed.

(** X15. Whatever the brace match of an error text decodes to is an
    object: reading its [message] cannot throw. *)
Theorem decoded_match_is_an_object (e m : jsstring) (v : value) :
  matchBraces e = Some m ->
  Json.parse m = Some v ->
  exists members, v = JObject members.
Proof.
  intros Hm Hparse.
  destruct (matchBraces_shape e m Hm) as (_ & body & _ & _ & -> & _).
  unfold Json.parse in Hparse.
  destruct (parseValue _ _) as [[v' rest]|] eqn:Hv; [|discriminate].
  destruct (skipWs rest); [|discriminate]. injection Hparse as ->.
  eapply (parseValue_object _ ([123%N] ++ body ++ [125%N]) (body ++ [125%N]));
    [reflexivity|exact Hv].
Qed.

(** *** [MessageContent] *)

(** X16. A string content is rendered part by part of its split: the
    pieces between the URLs as text, each URL as a link, and after each
    link the scheme of its URL once more as text. No piece and no
    scheme is taken for a link, and every URL is. *)
Theorem links_are_the_matched_urls (s : jsstring) :
  MessageContent (JString s) = Some (markup (splitUrls s)).
Proof.
  simpl. f_equal. apply splitUrls_markup.
Qed.

(** X17. Nothing of the content is lost in the split: the pieces and
    the URLs, in order and without the schemes, are the content. *)
Theorem parts_join_to_content (s : jsstring) :
  List.concat (withoutSchemes (splitUrls s)) = s.
Proof.
  unfold splitUrls. rewrite splitFrom_join by lia. reflexivity.
Qed.

(** X18. A content without [://] is rendered as it is, as one text. *)
Theorem plain_text_is_shown_as_it_is (s : jsstring) :
  includes s (str "://") = false ->
  MessageContent (JString s) = Some [Text s].
Proof.
  intros H. simpl. f_equal. rewrite splitUrls_markup. unfold splitUrls.
  now rewrite splitFrom_plain.
Qed.

(** X19. The split of a content is a piece of text, followed any
    number of times by a URL, its scheme and a piece of text; each URL
    is its scheme, then [://], then a tail that is not empty, and each
    scheme is [http], [https], [ftp] or [file] in some case of its
    letters. *)
Theorem split_shape (s : jsstring) : wellSplit (splitUrls s).
Proof. apply splitFrom_wellSplit. Qed.

Example link_scenario :
  MessageContent (JString Sample2.linkContent)
  = Some [Text (str "see "); Link (str "https://x.com"); Text (str "https");
          Text (str " ok")].
Proof. vm_compute. reflexivity. Qed.

(** *** The properties on the sample runs *)

Lemma unterminated_remainder_is_dropped_witness :
  messages (app (@submit Sample.v8 (Sample.respond Sample2.sseStream) Sample.ready))
  = messages (app Sample.ready)
      ++ [userMessage (str "hello"); botMessage (str "Hi")]
  /\ error (app (@submit Sample.v8 (Sample.respond Sample2.sseStream) Sample.ready))
     = [].
Proof.
  apply (@unterminated_remainder_is_dropped Sample.v8
           (Sample.respond Sample2.sseStream) Sample.ready Sample2.sseStream
           [firstn 20 Sample2.sseBytes; skipn 20 Sample2.sseBytes]
           Sample2.sseLines Sample2.sseTail).
  - vm_compute; reflexivity.
  - reflexivity.
  - repeat split; vm_compute; reflexivity.
  - repeat (apply Forall_cons; [apply isLine_check; vm_compute; reflexivity|]).
    apply Forall_nil.
  - apply isLine_check; vm_compute; reflexivity.
  - repeat (apply Forall_cons; [vm_compute; exact I|]). apply Forall_nil.
  - vm_compute; reflexivity.
Defined.

Lemma lines_without_text_change_nothing_witness :
  @processLine Sample.v8 (str "data: null") Sample.ready
  = (Normal tt, Sample.ready).
Proof.
  apply (@lines_without_text_change_nothing Sample.v8).
  right. exists (str " null"). split; [vm_compute; reflexivity|].
  right. right. exists JNull. split; vm_compute; reflexivity.
Defined.

Lemma frame_parser_ignores_surrounding_white_space_witness :
  dataPayload (str "  " ++ Sample.helloLine1 ++ [13%N])
  = dataPayload Sample.helloLine1.
Proof.
  refine (proj1 (@frame_parser_ignores_surrounding_white_space Sample.v8
                   (str "  ") Sample.helloLine1 [13%N] _ _));
    repeat (apply Forall_cons; [vm_compute; reflexivity|]); apply Forall_nil.
Defined.


Lemma normalizer_never_throws_witness :
  exists u,
    (forall w, @normalize Sample.v8 (str "Failed to fetch") w = (Normal u, w))
    /\ u = genericError (str "Failed to fetch").
Proof.
  destruct (@normalizer_never_throws Sample.v8 (str "Failed to fetch"))
    as (u & Hu & _ & Hgen).
  exists u. split; [exact Hu|]. apply Hgen. vm_compute; reflexivity.
Defined.

Lemma failed_read_replaces_partial_text_witness :
  error (app (@submit Sample.v8 (Sample.respond Sample2.cutStream) Sample.ready))
  = genericError (str "network error")
  /\ messages (app (@submit Sample.v8 (Sample.respond Sample2.cutStream) Sample.ready))
     = messages (app Sample.ready)
         ++ [userMessage (str "hello");
             errorReply (genericError (str "network error"))].
Proof.
  apply (@failed_read_replaces_partial_text Sample.v8
           (Sample.respond Sample2.cutStream) Sample.ready Sample2.cutStream
           [Utf8.bytesOf "data: " ++ Sample.object1Bytes "text" "He" ++ [x0a]]
           (str "network error"));
    vm_compute; reflexivity.
Defined.

Lemma rejected_fetch_is_sealed_witness :
  error (app (@submit Sample.v8 Sample2.unreachable Sample.ready))
  = genericError (str "Failed to fetch")
  /\ sent (@submit Sample.v8 Sample2.unreachable Sample.ready)
     = [requestFor (app Sample.ready)].
Proof.
  destruct (@rejected_fetch_is_sealed Sample.v8 Sample2.unreachable Sample.ready
              (str "Failed to fetch")) as (He & _ & _ & Hs).
  - vm_compute; reflexivity.
  - reflexivity.
  - vm_compute; reflexivity.
  - split; [exact He|exact Hs].
Defined.

Lemma undecodable_body_is_reported_witness :
  error (app (@submit Sample.v8 (Sample.respond Sample2.notJson) Sample.ready))
  = genericError (str "Unexpected token in JSON").
Proof.
  refine (proj1 (@undecodable_body_is_reported Sample.v8
                   (Sample.respond Sample2.notJson) Sample.ready Sample2.notJson
                   (Utf8.bytesOf "oops") _ _ _ _ _ _ _));
    vm_compute; reflexivity.
Defined.

Lemma single_object_without_text_stays_empty_witness :
  messages (app (@submit Sample.v8 (Sample.respond Sample2.noText) Sample.ready))
  = messages (app Sample.ready) ++ [userMessage (str "hello"); botMessage []]
  /\ error (app (@submit Sample.v8 (Sample.respond Sample2.noText) Sample.ready))
     = [].
Proof.
  apply (@single_object_without_text_stays_empty Sample.v8
           (Sample.respond Sample2.noText) Sample.ready Sample2.noText
           (Sample.object1Bytes "reply" "x")
           (JObject [(str "reply", JString (str "x"))]));
    first [vm_compute; reflexivity | discriminate].
Defined.

Lemma send_makes_at_most_one_request_witness :
  sent (@submit Sample.v8 (Sample.respond Sample.hiThere) Sample.noUrl) = []
  /\ messages (app (@submit Sample.v8 (Sample.respond Sample.hiThere) Sample.noUrl))
     = messages (app Sample.noUrl).
Proof.
  destruct (@send_makes_at_most_one_request Sample.v8
              (Sample.respond Sample.hiThere) Sample.noUrl) as [Hs Hrest].
  destruct Hrest as (Hm & _); [vm_compute; reflexivity|].
  split; [exact Hs|exact Hm].
Defined.




Lemma form_after_a_send_witness :
  submitDisabled (app Sample2.greeted) = true
  /\ @submit Sample.v8 Sample2.unreachable Sample2.greeted = Sample2.greeted.
Proof.
  destruct (@form_after_a_send Sample.v8 (Sample.respond Sample.hiThere)
              Sample2.unreachable Sample.ready) as (_ & _ & _ & Hd & Hs).
  - vm_compute; reflexivity.
  - split; [exact Hd|exact Hs].
Defined.

Lemma brace_match_shape_witness :
  exists before body after,
    str "a{b}c" = before ++ str "{b}" ++ after
    /\ str "{b}" = [123%N] ++ body ++ [125%N]
    /\ onOneLine body
    /\ dotStarBrace after = None.
Proof.
  apply (proj1 (brace_match_shape (str "a{b}c")) (str "{b}")).
  vm_compute; reflexivity.
Defined.

Lemma decoded_match_is_an_object_witness :
  exists members,
    JObject [(str "message", JString (str "Invalid API key"))] = JObject members.
Proof.
  apply (decoded_match_is_an_object Sample2.workflowFailure
           (Sample.object1 "message" "Invalid API key")
           (JObject [(str "message", JString (str "Invalid API key"))]));
    vm_compute; reflexivity.
Defined.

Lemma plain_text_is_shown_as_it_is_witness :
  MessageContent (JString (str "hello")) = Some [Text (str "hello")].
Proof.
  apply (plain_text_is_shown_as_it_is (str "hello")). vm_compute; reflexivity.
Defined.

Lemma non_string_text_cannot_be_rendered_witness :
  messages (app (@submit Sample.v8 (Sample.respond Sample2.textTrue) Sample.ready))
  = messages (app Sample.ready)
      ++ [userMessage (str "hello"); withText (JBool true) (botMessage [])]
  /\ MessageContent (JBool true) = None.
Proof.
  destruct (@non_string_text_cannot_be_rendered Sample.v8
              (Sample.respond Sample2.textTrue) Sample.ready Sample2.textTrue
              (Utf8.bytesOf "{" ++ Sample.quotedBytes "text" ++ Utf8.bytesOf ":true}")
              [(str "text", JBool true)] (JBool true)) as (Hm & _ & Hc);
    first [vm_compute; reflexivity | discriminate | idtac].
  split; [exact Hm|exact Hc].
Defined.


End Extras.
